(** * local-reverse-postalcode: the geocoder of [index.js]

    A shallow embedding of the geocoder object of [index.js]: the line
    parser of [_parseGeoNamesPostalCodesCsv], the distance function
    [_distanceFunc], and the two lookup entry points [lookUp] and
    [_lookUp], over an explicit store of JavaScript objects.

    Modelling conventions.
    - JavaScript numbers are mathematical reals plus [NaN]; rounding,
      infinities and signed zeros are not represented.
    - Objects live in a store and are handled through references, so
      that two arrays holding the same record share it.
    - Callbacks are run synchronously: a call returns the arguments its
      callback receives together with the store it leaves behind. *)

From Stdlib Require Import Reals Lra Lia ZArith Bool Arith.
From Stdlib Require Import Ascii String List Permutation.
Import ListNotations.

(* ===================================================================== *)
(** ** JavaScript values, numbers and objects *)
(* ===================================================================== *)

Module JS.

(** Numbers: a real, or [NaN]. *)
Inductive number : Type :=
| NaN
| Fin (r : R).

Definition num_lift2 (f : R -> R -> R) (a b : number) : number :=
  match a, b with
  | Fin x, Fin y => Fin (f x y)
  | _, _ => NaN
  end.

Definition num_lift1 (f : R -> R) (a : number) : number :=
  match a with
  | Fin x => Fin (f x)
  | NaN => NaN
  end.

Definition num_add : number -> number -> number := num_lift2 Rplus.
Definition num_sub : number -> number -> number := num_lift2 Rminus.
Definition num_mul : number -> number -> number := num_lift2 Rmult.
(** Only the non-zero constants 2 and 180 occur as divisors. *)
Definition num_div : number -> number -> number := num_lift2 Rdiv.

(** [a < b] of JavaScript: false as soon as one side is [NaN]. *)
Definition num_ltb (a b : number) : bool :=
  match a, b with
  | Fin x, Fin y => if Rlt_dec x y then true else false
  | _, _ => false
  end.

(** [Math.atan2] on reals. *)
Definition atan2_R (y x : R) : R :=
  if Rlt_dec 0 x then atan (y / x)
  else if Rlt_dec x 0 then
         (if Rle_dec 0 y then atan (y / x) + PI else atan (y / x) - PI)
  else if Rlt_dec 0 y then PI / 2
  else if Rlt_dec y 0 then - (PI / 2)
  else 0.

(** The members of [Math] that [_distanceFunc] uses. *)
Module Math.

Definition PI : number := Fin Rtrigo1.PI.

Definition sin : number -> number := num_lift1 Rtrigo_def.sin.

Definition cos : number -> number := num_lift1 Rtrigo_def.cos.

(** [NaN] below zero. *)
Definition sqrt (a : number) : number :=
  match a with
  | Fin x => if Rlt_dec x 0 then NaN else Fin (R_sqrt.sqrt x)
  | NaN => NaN
  end.

Definition atan2 : number -> number -> number := num_lift2 atan2_R.

End Math.

(** The values that reach the geocoder: property values of records and
    of query points. *)
Inductive value : Type :=
| VUndefined
| VNull
| VStr (s : string)
| VNum (n : number).

(** *** String to number

    Signed decimal literals ([-73.9925], [40], [.5]) and the empty
    string; every other string is read as [NaN] (exponents, hexadecimal
    literals, [Infinity] and surrounding white space are not modelled). *)

Definition digit_of (c : ascii) : option Z :=
  let n := nat_of_ascii c in
  if (48 <=? n)%nat && (n <=? 57)%nat then Some (Z.of_nat (n - 48)) else None.

(** Reads a run of digits: the accumulated value, how many digits were
    read, and the rest of the string. *)
Fixpoint read_digits (s : string) (acc : Z) (cnt : nat) : Z * nat * string :=
  match s with
  | EmptyString => (acc, cnt, EmptyString)
  | String c rest =>
      match digit_of c with
      | Some d => read_digits rest (10 * acc + d)%Z (S cnt)
      | None => (acc, cnt, s)
      end
  end.

(** Mantissa and number of fractional digits of an unsigned literal. *)
Definition read_unsigned (s : string) : option (Z * nat) :=
  match read_digits s 0%Z 0%nat with
  | (m, n, EmptyString) =>
      if (0 <? n)%nat then Some (m, 0%nat) else None
  | (m, n, String c rest) =>
      if Ascii.eqb c "."%char then
        match read_digits rest m 0%nat with
        | (m', f, EmptyString) =>
            if (0 <? n + f)%nat then Some (m', f) else None
        | _ => None
        end
      else None
  end.

Definition read_decimal (s : string) : option (Z * nat) :=
  match s with
  | EmptyString => Some (0%Z, 0%nat)
  | String c rest =>
      if Ascii.eqb c "-"%char then
        match read_unsigned rest with
        | Some (m, f) => Some ((- m)%Z, f)
        | None => None
        end
      else if Ascii.eqb c "+"%char then read_unsigned rest
      else read_unsigned s
  end.

Definition StringToNumber (s : string) : number :=
  match read_decimal s with
  | Some (m, f) => Fin (IZR m / IZR (10 ^ Z.of_nat f))
  | None => NaN
  end.

Definition ToNumber (v : value) : number :=
  match v with
  | VUndefined => NaN
  | VNull => Fin 0
  | VStr s => StringToNumber s
  | VNum n => n
  end.

(** *** Objects: properties in insertion order *)

Definition obj : Type := list (string * value).

(** [o[k]], read off the properties the object itself holds. What every
    object inherits from [Object.prototype] ([constructor], [toString]
    and the like) is not represented; the program reads none of these
    names. *)
Fixpoint get_prop (o : obj) (k : string) : value :=
  match o with
  | [] => VUndefined
  | (k', v) :: rest => if String.eqb k' k then v else get_prop rest k
  end.

(** [o[k] = v]: overwrites in place, or appends a new property. *)
Fixpoint set_prop (o : obj) (k : string) (v : value) : obj :=
  match o with
  | [] => [(k, v)]
  | (k', v') :: rest =>
      if String.eqb k' k then (k', v) :: rest else (k', v') :: set_prop rest k v
  end.

(** *** [String.prototype.split] with a one-character separator *)

Fixpoint split (sep : ascii) (s : string) : list string :=
  match s with
  | EmptyString => [EmptyString]
  | String c rest =>
      match split sep rest with
      | [] => [String c EmptyString]
      | h :: t =>
          if Ascii.eqb c sep then EmptyString :: h :: t
          else String c h :: t
      end
  end.

(** *** The store *)

Definition ref : Type := nat.
Definition store : Type := list obj.

Definition deref (h : store) (r : ref) : obj := nth r h [].

Fixpoint update (h : store) (r : ref) (f : obj -> obj) : store :=
  match h, r with
  | [], _ => []
  | o :: rest, O => f o :: rest
  | o :: rest, S r' => o :: update rest r' f
  end.

(** Allocating a batch of fresh objects: they are appended to the
    store, and the references to them are returned in order. *)
Definition alloc (h : store) (os : list obj) : store * list ref :=
  (h ++ os, seq (length h) (length os)).

End JS.

(* ===================================================================== *)
(** ** The k-d tree package [kdt]

    [index.js] requires the package and calls [createKdTree] and
    [nearest]; the package itself is not part of the sources. *)
(* ===================================================================== *)

Module Kdt.
Import JS.

(** Modelled from the spec: the spatial index built by [createKdTree].
    The sources do not contain the tree; the index is represented by
    what the specification lets a query observe: the references to the
    indexed records in insertion order, the configured metric and the
    indexed dimensions. *)
Record kdTree : Type := {
  points : list ref;
  metric : obj -> obj -> number;
  dimensions : list string
}.

(** Modelled from the spec: [kdTree.createKdTree(data, metric,
    dimensions)], the index builder; duplicates are kept. *)
Definition createKdTree (data : list ref) (metric : obj -> obj -> number)
    (dimensions : list string) : kdTree :=
  {| points := data; metric := metric; dimensions := dimensions |}.

(** Modelled from the spec: one step of the ascending, stable ordering
    of candidates; [e] precedes in insertion order everything in [l],
    so it goes in front of the first candidate that is not strictly
    nearer. *)
Fixpoint insert_by_distance (e : ref * number) (l : list (ref * number))
  : list (ref * number) :=
  match l with
  | [] => [e]
  | c :: rest =>
      if num_ltb (snd c) (snd e) then c :: insert_by_distance e rest
      else e :: l
  end.

(** Modelled from the spec: candidates ordered ascending by distance,
    ties broken by insertion order. *)
Fixpoint sort_by_distance (l : list (ref * number)) : list (ref * number) :=
  match l with
  | [] => []
  | e :: rest => insert_by_distance e (sort_by_distance rest)
  end.

(** Modelled from the spec: [tree.nearest(point, maxNodes)], the
    nearest-neighbour query: the [maxNodes] records whose distance to
    [point] under the configured metric is smallest, as pairs of the
    stored record and its distance, ascending by distance; all records
    when [maxNodes] exceeds their number, none for an empty tree. The
    records are the stored objects themselves, not copies. *)
Definition nearest (h : store) (t : kdTree) (point : obj) (maxNodes : nat)
  : list (ref * number) :=
  firstn maxNodes
    (sort_by_distance
       (map (fun r => (r, metric t point (deref h r))) (points t))).

End Kdt.

(* ===================================================================== *)
(** ** The geocoder of [index.js] *)
(* ===================================================================== *)

Module Geocoder.
Import JS Kdt.

Definition TAB : ascii := ascii_of_nat 9.

Definition POSTALCODE_COLUMNS : list string :=
  [ "countryCode"; "postalCode"; "placeName";
    "adminName1"; "adminCode1"; "adminName2"; "adminCode2";
    "adminName3"; "adminCode3";
    "latitude"; "longitude"; "accuracy" ]%string.

(** The geocoder object: its [_kdTree] property, and the store holding
    the records the tree refers to. *)
Record geocoder : Type := {
  heap : store;
  _kdTree : option kdTree
}.

(** The object as the module creates it: [_kdTree: null]. *)
Definition geocoder0 : geocoder := {| heap := []; _kdTree := None |}.

(** *** [_distanceFunc] *)

(** [num * Math.PI / 180]; the multiplication converts [num]. *)
Definition toRadians (num : value) : number :=
  num_div (num_mul (ToNumber num) Math.PI) (Fin 180).

Definition _distanceFunc (x y : obj) : number :=
  let lat1 := get_prop x "latitude" in
  let lon1 := get_prop x "longitude" in
  let lat2 := get_prop y "latitude" in
  let lon2 := get_prop y "longitude" in
  let R := Fin 6371 in
  let φ1 := toRadians lat1 in
  let φ2 := toRadians lat2 in
  let Δφ := toRadians (VNum (num_sub (ToNumber lat2) (ToNumber lat1))) in
  let Δλ := toRadians (VNum (num_sub (ToNumber lon2) (ToNumber lon1))) in
  let a :=
    num_add
      (num_mul (Math.sin (num_div Δφ (Fin 2)))
               (Math.sin (num_div Δφ (Fin 2))))
      (num_mul
         (num_mul (num_mul (Math.cos φ1) (Math.cos φ2))
                  (Math.sin (num_div Δλ (Fin 2))))
         (Math.sin (num_div Δλ (Fin 2)))) in
  let c :=
    num_mul (Fin 2)
            (Math.atan2 (Math.sqrt a) (Math.sqrt (num_sub (Fin 1) a))) in
  num_mul R c.

Arguments _distanceFunc : simpl never.

(** *** [_parseGeoNamesPostalCodesCsv] *)

(** [line[i] || null]: a missing field and an empty field both give
    [null]. *)
Definition column_or_null (line : list string) (i : nat) : value :=
  match nth_error line i with
  | Some EmptyString => VNull
  | Some s => VStr s
  | None => VNull
  end.

(** The body of the [each] callback: one line, one record. *)
Definition parse_line (line : string) : obj :=
  let lenI := length POSTALCODE_COLUMNS in
  let line := split TAB line in
  fold_left
    (fun lineObj i =>
       let column := column_or_null line i in
       set_prop lineObj (nth i POSTALCODE_COLUMNS EmptyString) column)
    (seq 0 lenI) [].

(** The lines are those the reader of the file hands to [each]; on
    completion the tree is built over the records and stored. *)
Definition _parseGeoNamesPostalCodesCsv (lines : list string) (g : geocoder)
  : geocoder :=
  let data := map parse_line lines in
  let (h, refs) := alloc (heap g) data in
  let dimensions := [ "latitude"; "longitude" ]%string in
  {| heap := h;
     _kdTree := Some (createKdTree refs _distanceFunc dimensions) |}.

(** [init], once the data file has been obtained. *)
Definition init (lines : list string) (g : geocoder) : geocoder :=
  _parseGeoNamesPostalCodesCsv lines g.

(** *** [_lookUp] and [lookUp] *)

(** The [points] argument: one point, or an array of points. *)
Inductive points_arg : Type :=
| Single (point : obj)
| Batch (points : list obj).

(** What a callback is called with: [callback(err)] leaves the result
    undefined. *)
Record callback_args (A : Type) : Type := {
  err : option string;
  res : option A
}.
Arguments Build_callback_args {A} _ _.
Arguments err {A} _.
Arguments res {A} _.

(** [zipCode[0].distance = zipCode[1]; zipCodeList.push(zipCode[0])] *)
Definition annotate_step (acc : store * list ref) (zipCode : ref * number)
  : store * list ref :=
  let (h, zipCodeList) := acc in
  (update h (fst zipCode)
          (fun o => set_prop o "distance" (VNum (snd zipCode))),
   zipCodeList ++ [fst zipCode]).

(** The function stored at [functions[i]]: it returns what it passes to
    [innerCallback] (the error is always [null]) and the store. The
    guard [result && result[0] && result[0][0]] holds exactly when the
    array of candidates is not empty: a candidate is a pair whose first
    component is a record object. *)
Definition lookup_point (t : kdTree) (maxResults : nat) (h : store)
    (point : obj) : store * list ref :=
  let result := nearest h t point maxResults in
  match result with
  | [] => (h, [])
  | _ :: _ => fold_left annotate_step result (h, [])
  end.

(** The same function from its guard on, with the candidates [result]
    that [nearest] returned as a parameter. *)
Definition annotate (h : store) (result : list (ref * number))
  : store * list ref :=
  match result with
  | [] => (h, [])
  | _ :: _ => fold_left annotate_step result (h, [])
  end.

(** [async.series(functions, ...)]: the functions run one after the
    other, and their results are collected in order. *)
Definition series (t : kdTree) (maxResults : nat) (h : store)
    (points : list obj) : store * list (list ref) :=
  fold_left
    (fun (acc : store * list (list ref)) point =>
       let (h1, results) := acc in
       let (h2, zipCodeList) := lookup_point t maxResults h1 point in
       (h2, results ++ [zipCodeList]))
    points (h, []).

(** [if (!Array.isArray(points)) { points = [points]; }] *)
Definition points_of (points : points_arg) : list obj :=
  match points with
  | Single point => [point]
  | Batch points => points
  end.

Definition NOT_INITIALIZED : string :=
  "You must first call init before calling lookup".

Definition _lookUp (g : geocoder) (points : points_arg) (maxResults : nat)
  : geocoder * callback_args (list (list ref)) :=
  match _kdTree g with
  | None => (g, {| err := Some NOT_INITIALIZED; res := None |})
  | Some t =>
      let points := points_of points in
      let (h, results) := series t maxResults (heap g) points in
      ({| heap := h; _kdTree := Some t |},
       {| err := None; res := Some results |})
  end.

(** [arg2] is absent in the two-argument call [lookUp(points,
    callback)]. *)
Definition lookUp (g : geocoder) (points : points_arg) (arg2 : option nat)
  : geocoder * callback_args (list ref) :=
  let maxResults :=
    match arg2 with
    | None => 1%nat
    | Some k => k
    end in
  let (g', args) := _lookUp g points maxResults in
  match res args with
  | Some (first :: _) => (g', {| err := err args; res := Some first |})
  | _ => (g', {| err := err args; res := None |})
  end.

(** The distances a callback reads off the records it was handed. *)
Definition distances (g : geocoder) (l : list ref) : list value :=
  map (fun r => get_prop (deref (heap g) r) "distance") l.

End Geocoder.

(* ===================================================================== *)
(** ** Reference notions of the specification *)
(* ===================================================================== *)

Module Reference.
Import JS.
Local Open Scope R_scope.

(** The haversine of the central angle between two points whose
    coordinates are given in degrees. *)
Definition hav (lat1 lon1 lat2 lon2 : R) : R :=
  sin ((lat2 - lat1) * PI / 180 / 2) * sin ((lat2 - lat1) * PI / 180 / 2)
  + cos (lat1 * PI / 180) * cos (lat2 * PI / 180)
    * sin ((lon2 - lon1) * PI / 180 / 2)
    * sin ((lon2 - lon1) * PI / 180 / 2).

(** The metric in the words of the specification: the great-circle
    (haversine) distance in kilometres on a sphere of radius 6371 km,
    [d = 2 r asin (sqrt hav)]. *)
Definition haversine_km (lat1 lon1 lat2 lon2 : R) : R :=
  2 * 6371 * asin (sqrt (hav lat1 lon1 lat2 lon2)).

(** The same distance as the length of the great-circle arc: the radius
    times the central angle, the angle given by the spherical law of
    cosines. *)
Definition central_angle_cos (lat1 lon1 lat2 lon2 : R) : R :=
  sin (lat1 * PI / 180) * sin (lat2 * PI / 180)
  + cos (lat1 * PI / 180) * cos (lat2 * PI / 180)
    * cos ((lon2 - lon1) * PI / 180).

Definition great_circle_km (lat1 lon1 lat2 lon2 : R) : R :=
  6371 * acos (central_angle_cos lat1 lon1 lat2 lon2).

(** A query point in the words of the specification: both coordinates
    numeric, latitude within [-90, 90] and longitude within
    [-180, 180]. *)
Definition valid_point (p : obj) : Prop :=
  exists lat lon : R,
    ToNumber (get_prop p "latitude") = Fin lat /\
    ToNumber (get_prop p "longitude") = Fin lon /\
    -90 <= lat <= 90 /\ -180 <= lon <= 180.

End Reference.

(* ===================================================================== *)
(** ** Sample data *)
(* ===================================================================== *)

Module Samples.
Import JS Kdt Geocoder.

(** A line of the data file from its fields. *)
Definition tsv (fields : list string) : string :=
  String.concat (String TAB EmptyString) fields.

(** A record on the equator at the prime meridian, one on the equator at
    the antimeridian, and a line that stops after the postal code. *)
Definition line_origin : string :=
  tsv [ "XX"; "00001"; "Origin"; ""; ""; ""; ""; ""; ""; "0"; "0"; "4" ]%string.
Definition line_antimeridian : string :=
  tsv [ "XX"; "00002"; "Antimeridian"; ""; ""; ""; ""; ""; "";
        "0"; "180"; "4" ]%string.
Definition line_short : string := tsv [ "US"; "10018" ]%string.

Definition record_origin : obj := parse_line line_origin.
Definition record_antimeridian : obj := parse_line line_antimeridian.

(** Geocoders initialised from no line, one line and two lines. *)
Definition index_empty : geocoder := init [] geocoder0.
Definition index_one : geocoder := init [line_origin] geocoder0.
Definition index_two : geocoder :=
  init [line_origin; line_antimeridian] geocoder0.

(** Three records on the equator, at longitudes 0, 30 and 90. *)
Definition line_thirty : string :=
  tsv [ "XX"; "00003"; "Thirty East"; ""; ""; ""; ""; ""; "";
        "0"; "30"; "4" ]%string.
Definition line_ninety : string :=
  tsv [ "XX"; "00004"; "Ninety East"; ""; ""; ""; ""; ""; "";
        "0"; "90"; "4" ]%string.
Definition index_three : geocoder :=
  init [line_origin; line_thirty; line_ninety] geocoder0.

Definition tree_of (data : list ref) : kdTree :=
  createKdTree data _distanceFunc [ "latitude"; "longitude" ]%string.

(** Query points: [{latitude: 0, longitude: 0}],
    [{latitude: 0, longitude: 180}] and
    [{latitude: "abc", longitude: 1000}]. *)
Definition point_origin : obj :=
  [ ("latitude"%string, VNum (Fin 0)); ("longitude"%string, VNum (Fin 0)) ].
Definition point_antimeridian : obj :=
  [ ("latitude"%string, VNum (Fin 0)); ("longitude"%string, VNum (Fin 180)) ].
(** [{latitude: 0, longitude: 20}] and [{latitude: 0, longitude: -10}] *)
Definition point_twenty_east : obj :=
  [ ("latitude"%string, VNum (Fin 0)); ("longitude"%string, VNum (Fin 20)) ].
Definition point_ten_west : obj :=
  [ ("latitude"%string, VNum (Fin 0));
    ("longitude"%string, VNum (Fin (-10))) ].
Definition point_malformed : obj :=
  [ ("latitude"%string, VStr "abc"); ("longitude"%string, VNum (Fin 1000)) ].

End Samples.

(* ===================================================================== *)
(** ** Lines and their fields *)
(* ===================================================================== *)

Module Fields.
Import JS Geocoder.

(** A field of a line: text without a tab. *)
Fixpoint tab_free (s : string) : bool :=
  match s with
  | EmptyString => true
  | String c rest => negb (Ascii.eqb c TAB) && tab_free rest
  end.

End Fields.

(* ===================================================================== *)
(** ** The web service of [app.js] *)
(* ===================================================================== *)

Module WebService.
Import JS Kdt Geocoder.

(** [req.query], as far as the handler reads it: each of the two
    parameters is absent or a string. *)
Record query : Type := {
  latitude : option string;
  longitude : option string
}.

(** What [res.send] is given: a text, the addresses, or [undefined]. *)
Inductive body : Type :=
| Text (s : string)
| Addresses (addresses : list obj)
| Nothing.

(** [res.send(status, body)]; [res.send(body)] answers with status
    200. *)
Record response : Type := {
  status : nat;
  sent : body
}.

(** [v || false] on a query parameter: the empty string is as good as
    none. *)
Definition or_false (v : option string) : option string :=
  match v with
  | Some EmptyString => None
  | Some s => Some s
  | None => None
  end.

(** The handler of the route [/geocode/]: the geocoder it leaves and
    the response it sends. The addresses are sent as the records are
    when the callback of [lookUp] runs. *)
Definition geocode (g : geocoder) (req : query) : geocoder * response :=
  let lat := or_false (latitude req) in
  let lon := or_false (longitude req) in
  match lat, lon with
  | Some lat, Some lon =>
      let point :=
        [ ("latitude"%string, VStr lat); ("longitude"%string, VStr lon) ] in
      let (g', args) := lookUp g (Single point) (Some 1%nat) in
      match err args with
      | Some (String c s) =>
          (g', {| status := 500; sent := Text (String c s) |})
      | _ =>
          (g', {| status := 200;
                  sent := match res args with
                          | Some addresses =>
                              Addresses (map (deref (heap g')) addresses)
                          | None => Nothing
                          end |})
      end
  | _, _ => (g, {| status := 400; sent := Text "Bad Request" |})
  end.

(** Requests are handled one at a time, each on the geocoder the one
    before it left. *)
Definition serve (g : geocoder) (reqs : list query) : geocoder :=
  fold_left (fun g req => fst (geocode g req)) reqs g.

End WebService.

(* ===================================================================== *)
(** ** The cache of the data file

    The two synchronous parts of [_getGeoNamesPostalCodeData]: what it
    does before the download starts, and what the handler does when the
    extraction of the archive has closed. The download and the
    extraction themselves are not modelled. *)
(* ===================================================================== *)

Module Cache.
Import JS.

Definition GEONAMES_URL : string :=
  "http://download.geonames.org/export/zip/".

Definition ALL_COUNTRIES_FILE : string := "allCountries".

(** *** The file system

    The paths that exist, each with what it is; of a path listed twice
    the first entry counts. Paths are absolute and written as the
    source builds them, a directory, a slash and a name. What a file
    holds is not modelled, and a renamed directory is not followed by
    what lies in it. *)

Inductive kind : Type :=
| RegularFile
| Directory.

Definition files : Type := list (string * kind).

Fixpoint stat (fs : files) (path : string) : option kind :=
  match fs with
  | [] => None
  | (p, k) :: rest => if String.eqb path p then Some k else stat rest path
  end.

(** [fs.existsSync], true of files and of directories. *)
Definition existsSync (fs : files) (path : string) : bool :=
  match stat fs path with
  | Some _ => true
  | None => false
  end.

Definition remove_path (fs : files) (path : string) : files :=
  filter (fun e => negb (String.eqb (fst e) path)) fs.

Definition place (fs : files) (path : string) (k : kind) : files :=
  (path, k) :: remove_path fs path.

(** [fs.mkdirSync] of the path [parent/name]: [None] when it throws,
    [parent] not being a directory or the path being there already. *)
Definition mkdirSync (fs : files) (parent name : string) : option files :=
  match stat fs parent, stat fs (parent ++ "/" ++ name) with
  | Some Directory, None =>
      Some (place fs (parent ++ "/" ++ name) Directory)
  | _, _ => None
  end.

(** [fs.createWriteStream] of the path [parent/name], once the stream
    has opened: the file is there. [None] when the stream fails to
    open, [parent] not being a directory or the path being one. *)
Definition createWriteStream (fs : files) (parent name : string)
  : option files :=
  match stat fs parent, stat fs (parent ++ "/" ++ name) with
  | Some Directory, Some Directory => None
  | Some Directory, _ =>
      Some (place fs (parent ++ "/" ++ name) RegularFile)
  | _, _ => None
  end.

(** [fs.unlinkSync]: [None] when it throws, the path not being there or
    being a directory. *)
Definition unlinkSync (fs : files) (path : string) : option files :=
  match stat fs path with
  | Some RegularFile => Some (remove_path fs path)
  | _ => None
  end.

(** [fs.renameSync]: [None] when it throws, the old path not being
    there, or one of the two paths being a directory and the other a
    regular file; what is at the new path is replaced. *)
Definition renameSync (fs : files) (oldPath newPath : string)
  : option files :=
  match stat fs oldPath, stat fs newPath with
  | None, _ => None
  | Some RegularFile, Some Directory => None
  | Some Directory, Some RegularFile => None
  | Some k, _ => Some (place (remove_path fs oldPath) newPath k)
  end.

Fixpoint slash_free (s : string) : bool :=
  match s with
  | EmptyString => true
  | String c rest => negb (Ascii.eqb c "/"%char) && slash_free rest
  end.

Fixpoint strip_prefix (prefix s : string) : option string :=
  match prefix, s with
  | EmptyString, _ => Some s
  | String a prefix', String b s' =>
      if Ascii.eqb a b then strip_prefix prefix' s' else None
  | String _ _, EmptyString => None
  end.

(** The name of [path] in the directory [dir], if it lies directly in
    it. *)
Definition entry_of (dir path : string) : list string :=
  match strip_prefix (dir ++ "/") path with
  | Some (String c name) =>
      if slash_free (String c name) then [String c name] else []
  | _ => []
  end.

(** [fs.readdirSync]: the names of what lies directly in [dir], files
    and directories; [None] when it throws, [dir] not being a
    directory. *)
Definition readdirSync (fs : files) (dir : string) : option (list string) :=
  match stat fs dir with
  | Some Directory =>
      Some (nodup string_dec (flat_map (entry_of dir) (map fst fs)))
  | _ => None
  end.

(** [path.basename] of a path that does not end in a slash: what
    follows the last slash; [name] collects the component being
    read. *)
Fixpoint last_component (path name : string) : string :=
  match path with
  | EmptyString => name
  | String c rest =>
      if Ascii.eqb c "/"%char then last_component rest EmptyString
      else last_component rest (name ++ String c EmptyString)
  end.

Definition basename (path : string) : string :=
  last_component path EmptyString.

(** *** The names *)

Definition timestampedFilename (GEONAMES_CACHE_DIR now : string) : string :=
  GEONAMES_CACHE_DIR ++ "/postal_codes/" ++ ALL_COUNTRIES_FILE ++ "_"
    ++ now ++ ".txt".

Definition filename (GEONAMES_CACHE_DIR : string) : string :=
  GEONAMES_CACHE_DIR ++ "/postal_codes/" ++ ALL_COUNTRIES_FILE ++ ".txt".

Definition zipFilename (GEONAMES_CACHE_DIR now : string) : string :=
  GEONAMES_CACHE_DIR ++ "/postal_codes/" ++ ALL_COUNTRIES_FILE ++ "_"
    ++ now ++ ".zip".

(** *** Before the download *)

(** How the synchronous part ends: with [callback(null, path)], or with
    the request for [url] piped into the stream of [zipFilename]. *)
Inductive started : Type :=
| Callback (path : string)
| Fetch (url zipFilename : string).

(** [now] is the date of the day, the first ten characters of the ISO
    time stamp. [None] when [fs.mkdirSync] throws or the stream of the
    archive fails to open; the callback is then not called by this
    part. *)
Definition _getGeoNamesPostalCodeData (GEONAMES_CACHE_DIR now : string)
    (fs : files) : option (files * started) :=
  if existsSync fs (timestampedFilename GEONAMES_CACHE_DIR now)
  then Some (fs, Callback (timestampedFilename GEONAMES_CACHE_DIR now))
  else if existsSync fs (filename GEONAMES_CACHE_DIR)
  then Some (fs, Callback (filename GEONAMES_CACHE_DIR))
  else
    let made :=
      if negb (existsSync fs (GEONAMES_CACHE_DIR ++ "/postal_codes"))
      then mkdirSync fs GEONAMES_CACHE_DIR "postal_codes"
      else Some fs in
    match made with
    | None => None
    | Some fs1 =>
        match createWriteStream fs1 (GEONAMES_CACHE_DIR ++ "/postal_codes")
                (ALL_COUNTRIES_FILE ++ "_" ++ now ++ ".zip") with
        | None => None
        | Some fs2 =>
            Some (fs2, Fetch (GEONAMES_URL ++ ALL_COUNTRIES_FILE ++ ".zip")
                             (zipFilename GEONAMES_CACHE_DIR now))
        end
    end.

(** *** When the extraction has closed *)

(** The housekeeping loop: every entry of the directory but the current
    file is unlinked. *)
Fixpoint remove_old_files (GEONAMES_CACHE_DIR currentFileName : string)
    (fs : files) (names : list string) : option files :=
  match names with
  | [] => Some fs
  | file :: rest =>
      if negb (String.eqb file currentFileName) then
        match unlinkSync fs (GEONAMES_CACHE_DIR ++ "/postal_codes/" ++ file)
        with
        | Some fs' =>
            remove_old_files GEONAMES_CACHE_DIR currentFileName fs' rest
        | None => None
        end
      else remove_old_files GEONAMES_CACHE_DIR currentFileName fs rest
  end.

(** The handler of the [close] event of the extraction, on the file
    system as the extraction left it: the file system it leaves and
    the path it calls back with, or [None] when one of its calls
    throws (the handler runs after the [try] block around it has been
    left, so nothing catches the exception and the callback is not
    called). *)
Definition on_extracted (GEONAMES_CACHE_DIR now : string) (fs : files)
  : option (files * string) :=
  match renameSync fs (filename GEONAMES_CACHE_DIR)
                   (timestampedFilename GEONAMES_CACHE_DIR now) with
  | None => None
  | Some fs1 =>
      match unlinkSync fs1 (zipFilename GEONAMES_CACHE_DIR now) with
      | None => None
      | Some fs2 =>
          let currentFileName :=
            basename (timestampedFilename GEONAMES_CACHE_DIR now) in
          match readdirSync fs2 (GEONAMES_CACHE_DIR ++ "/postal_codes") with
          | None => None
          | Some names =>
              match remove_old_files GEONAMES_CACHE_DIR currentFileName
                      fs2 names with
              | Some fs3 =>
                  Some (fs3, timestampedFilename GEONAMES_CACHE_DIR now)
              | None => None
              end
          end
      end
  end.

End Cache.

(* ===================================================================== *)
(** ** Properties *)
(* ===================================================================== *)

Import JS Kdt Geocoder Reference Samples.

(** *** Objects and the store *)

Lemma get_set_prop_other (o : obj) (k k' : string) (v : value) :
  k <> k' -> get_prop (set_prop o k v) k' = get_prop o k'.
Proof.
  intros Hk. induction o as [|[k0 v0] rest IH]; simpl.
  - destruct (String.eqb k k') eqn:E;
      [apply String.eqb_eq in E; contradiction | reflexivity].
  - destruct (String.eqb k0 k) eqn:E0; simpl.
    + apply String.eqb_eq in E0. subst k0.
      destruct (String.eqb k k') eqn:E;
        [apply String.eqb_eq in E; contradiction | reflexivity].
    + destruct (String.eqb k0 k'); [reflexivity | exact IH].
Qed.

Lemma get_set_prop_same (o : obj) (k : string) (v : value) :
  get_prop (set_prop o k v) k = v.
Proof.
  induction o as [|[k0 v0] rest IH]; simpl.
  - now rewrite String.eqb_refl.
  - destruct (String.eqb k0 k) eqn:E0; simpl; rewrite E0;
      [reflexivity | exact IH].
Qed.

Lemma update_length (h : store) (r : ref) (f : obj -> obj) :
  length (update h r f) = length h.
Proof.
  revert r. induction h as [|o rest IH]; intros [|r]; simpl; auto.
Qed.

Lemma deref_update_same (h : store) (r : ref) (f : obj -> obj) :
  (r < length h)%nat -> deref (update h r f) r = f (deref h r).
Proof.
  unfold deref. revert r.
  induction h as [|o rest IH]; intros [|r] Hr; simpl in *;
    try lia; [reflexivity | apply IH; lia].
Qed.

Lemma deref_update_other (h : store) (r r' : ref) (f : obj -> obj) :
  r <> r' -> deref (update h r f) r' = deref h r'.
Proof.
  unfold deref. revert r r'.
  induction h as [|o rest IH]; intros [|r] [|r'] Hr; simpl; auto;
    try congruence.
Qed.

(** Writing one property of one object leaves every other property of
    every object as it was. *)
Lemma get_prop_update_other (h : store) (r r' : ref) (k k' : string)
    (v : value) :
  k <> k' ->
  get_prop (deref (update h r (fun o => set_prop o k v)) r') k'
  = get_prop (deref h r') k'.
Proof.
  intros Hk. destruct (Nat.eq_dec r r') as [<-|Hr].
  - destruct (Nat.lt_ge_cases r (length h)) as [Hlt|Hge].
    + rewrite deref_update_same by exact Hlt. now apply get_set_prop_other.
    + unfold deref. rewrite !nth_overflow; [reflexivity | exact Hge |].
      now rewrite update_length.
  - now rewrite deref_update_other.
Qed.

(** *** Numbers and the distance function *)

Section Distance.
Local Open Scope R_scope.

Lemma num_ltb_lt (x y : R) : x < y -> num_ltb (Fin x) (Fin y) = true.
Proof.
  intros H. simpl. destruct (Rlt_dec x y); [reflexivity | contradiction].
Qed.

Lemma num_ltb_ge (x y : R) : y <= x -> num_ltb (Fin x) (Fin y) = false.
Proof.
  intros H. simpl. destruct (Rlt_dec x y); [lra | reflexivity].
Qed.

Lemma sin_half_sq (x : R) : sin (x / 2) * sin (x / 2) = (1 - cos x) / 2.
Proof.
  assert (H : cos (2 * (x / 2)) = 1 - 2 * sin (x / 2) * sin (x / 2))
    by apply cos_2a_sin.
  replace (2 * (x / 2)) with x in H by field.
  rewrite H. field.
Qed.

Lemma cos_cos_product (p q : R) :
  cos p * cos q = (cos (q - p) + cos (p + q)) / 2.
Proof. rewrite cos_minus, cos_plus. field. Qed.

(** The quantity under the square roots of [_distanceFunc] lies between
    0 and 1 for all coordinates, in range or not. *)
Lemma hav_bounds (lat1 lon1 lat2 lon2 : R) :
  0 <= hav lat1 lon1 lat2 lon2 <= 1.
Proof.
  unfold hav.
  rewrite sin_half_sq.
  rewrite !Rmult_assoc. rewrite sin_half_sq. rewrite <- !Rmult_assoc.
  rewrite cos_cos_product.
  replace (lat2 * PI / 180 - lat1 * PI / 180)
    with ((lat2 - lat1) * PI / 180) by field.
  pose proof (COS_bound ((lat2 - lat1) * PI / 180)) as [Hu1 Hu2].
  pose proof (COS_bound (lat1 * PI / 180 + lat2 * PI / 180)) as [Hw1 Hw2].
  pose proof (COS_bound ((lon2 - lon1) * PI / 180)) as [Ht1 Ht2].
  set (u := cos ((lat2 - lat1) * PI / 180)) in *.
  set (w := cos (lat1 * PI / 180 + lat2 * PI / 180)) in *.
  set (t := cos ((lon2 - lon1) * PI / 180)) in *.
  split; nra.
Qed.

Lemma distance_numeric (x y : obj) (lat1 lon1 lat2 lon2 : R) :
  ToNumber (get_prop x "latitude") = Fin lat1 ->
  ToNumber (get_prop x "longitude") = Fin lon1 ->
  ToNumber (get_prop y "latitude") = Fin lat2 ->
  ToNumber (get_prop y "longitude") = Fin lon2 ->
  _distanceFunc x y
  = Fin (6371 * (2 * atan2_R (sqrt (hav lat1 lon1 lat2 lon2))
                             (sqrt (1 - hav lat1 lon1 lat2 lon2)))).
Proof.
  intros H1 H2 H3 H4.
  unfold _distanceFunc, toRadians. rewrite H1, H2, H3, H4. simpl.
  fold (hav lat1 lon1 lat2 lon2).
  pose proof (hav_bounds lat1 lon1 lat2 lon2) as [Ha0 Ha1].
  destruct (Rlt_dec (hav lat1 lon1 lat2 lon2) 0) as [Hn|_]; [lra|].
  destruct (Rlt_dec (1 - hav lat1 lon1 lat2 lon2) 0) as [Hn|_]; [lra|].
  reflexivity.
Qed.

(** On the two square roots, [Math.atan2] is the arcsine. *)
Lemma atan2_sqrt_asin (a : R) :
  0 <= a <= 1 -> atan2_R (sqrt a) (sqrt (1 - a)) = asin (sqrt a).
Proof.
  intros [Ha0 Ha1]. unfold atan2_R.
  destruct (Req_dec a 1) as [->|Hne].
  - replace (1 - 1) with 0 by ring. rewrite sqrt_0, sqrt_1, asin_1.
    destruct (Rlt_dec 0 0) as [H|_]; [lra|].
    destruct (Rlt_dec 0 1) as [_|H]; [reflexivity | lra].
  - assert (Hpos : 0 < sqrt (1 - a)) by (apply sqrt_lt_R0; lra).
    destruct (Rlt_dec 0 (sqrt (1 - a))) as [_|H]; [|lra].
    assert (Hlt : sqrt a < 1).
    { rewrite <- sqrt_1. apply sqrt_lt_1; lra. }
    pose proof (sqrt_pos a) as Hge.
    rewrite asin_atan by lra.
    now rewrite Rsqr_sqrt by lra.
Qed.

(** [_distanceFunc] is the metric of the specification on every pair of
    objects with numeric coordinates. *)
Lemma distance_is_haversine (x y : obj) (lat1 lon1 lat2 lon2 : R) :
  ToNumber (get_prop x "latitude") = Fin lat1 ->
  ToNumber (get_prop x "longitude") = Fin lon1 ->
  ToNumber (get_prop y "latitude") = Fin lat2 ->
  ToNumber (get_prop y "longitude") = Fin lon2 ->
  _distanceFunc x y = Fin (haversine_km lat1 lon1 lat2 lon2).
Proof.
  intros H1 H2 H3 H4.
  rewrite (distance_numeric x y _ _ _ _ H1 H2 H3 H4).
  rewrite atan2_sqrt_asin by apply hav_bounds.
  unfold haversine_km. f_equal. ring.
Qed.

Lemma hav_central_angle (lat1 lon1 lat2 lon2 : R) :
  hav lat1 lon1 lat2 lon2
  = (1 - central_angle_cos lat1 lon1 lat2 lon2) / 2.
Proof.
  unfold hav, central_angle_cos.
  rewrite sin_half_sq.
  rewrite !Rmult_assoc. rewrite sin_half_sq.
  replace ((lat2 - lat1) * PI / 180)
    with (lat2 * PI / 180 - lat1 * PI / 180) by field.
  rewrite cos_minus. field.
Qed.

(** The haversine formula measures the great-circle arc. *)
Lemma haversine_is_great_circle (lat1 lon1 lat2 lon2 : R) :
  haversine_km lat1 lon1 lat2 lon2 = great_circle_km lat1 lon1 lat2 lon2.
Proof.
  unfold haversine_km, great_circle_km.
  pose proof (hav_bounds lat1 lon1 lat2 lon2) as [Ha0 Ha1].
  pose proof (hav_central_angle lat1 lon1 lat2 lon2) as Hc.
  set (a := hav lat1 lon1 lat2 lon2) in *.
  assert (Hs0 : 0 <= sqrt a) by apply sqrt_pos.
  assert (Hs1 : sqrt a <= 1).
  { rewrite <- sqrt_1. apply sqrt_le_1; lra. }
  set (theta := asin (sqrt a)).
  assert (Hsin : sin theta = sqrt a) by (apply sin_asin; lra).
  assert (Hb : - (PI / 2) <= theta <= PI / 2) by apply asin_bound.
  assert (Hpos : 0 <= theta).
  { destruct (Rle_lt_dec 0 theta) as [H|H]; [exact H|].
    pose proof PI_RGT_0.
    assert (sin theta < 0) by (apply sin_lt_0_var; lra). lra. }
  assert (Hcos : cos (2 * theta)
                 = central_angle_cos lat1 lon1 lat2 lon2).
  { rewrite cos_2a_sin, Hsin.
    replace (2 * sqrt a * sqrt a) with (2 * (sqrt a * sqrt a)) by ring.
    rewrite sqrt_sqrt by exact Ha0. lra. }
  rewrite <- Hcos, acos_cos by lra. ring.
Qed.

(** [_distanceFunc] reads the coordinates of its arguments and nothing
    else; in particular not the [distance] written by a lookup. *)
Lemma distance_reads_coordinates (x y y' : obj) :
  get_prop y' "latitude" = get_prop y "latitude" ->
  get_prop y' "longitude" = get_prop y "longitude" ->
  _distanceFunc x y' = _distanceFunc x y.
Proof. intros Hlat Hlon. unfold _distanceFunc. now rewrite Hlat, Hlon. Qed.

Lemma distance_ignores_annotation (x y : obj) (v : value) :
  _distanceFunc x (set_prop y "distance" v) = _distanceFunc x y.
Proof.
  apply distance_reads_coordinates; apply get_set_prop_other; discriminate.
Qed.

Lemma haversine_km_same (lat lon : R) : haversine_km lat lon lat lon = 0.
Proof.
  unfold haversine_km, hav.
  replace ((lat - lat) * PI / 180 / 2) with 0 by field.
  replace ((lon - lon) * PI / 180 / 2) with 0 by field.
  rewrite sin_0.
  replace (0 * 0 + cos (lat * PI / 180) * cos (lat * PI / 180) * 0 * 0)
    with 0 by ring.
  rewrite sqrt_0, asin_0. ring.
Qed.

(** Half a turn along the equator: [6371 * PI] kilometres. *)
Lemma haversine_km_half_turn :
  haversine_km 0 0 0 180 = 6371 * PI /\ haversine_km 0 180 0 0 = 6371 * PI.
Proof.
  unfold haversine_km, hav.
  replace ((0 - 0) * PI / 180 / 2) with 0 by field.
  replace (0 * PI / 180) with 0 by field.
  replace ((180 - 0) * PI / 180 / 2) with (PI / 2) by field.
  replace ((0 - 180) * PI / 180 / 2) with (- (PI / 2)) by field.
  rewrite sin_neg, sin_0, cos_0, sin_PI2.
  replace (0 * 0 + 1 * 1 * 1 * 1) with 1 by ring.
  replace (0 * 0 + 1 * 1 * - (1) * - (1)) with 1 by ring.
  rewrite sqrt_1, asin_1. split; field.
Qed.

Lemma half_turn_pos : 0 < 6371 * PI.
Proof. pose proof PI_RGT_0. lra. Qed.

Lemma StringToNumber_0 : StringToNumber "0" = Fin 0.
Proof. unfold StringToNumber. simpl. f_equal. lra. Qed.

Lemma StringToNumber_180 : StringToNumber "180" = Fin 180.
Proof. unfold StringToNumber. simpl. f_equal. lra. Qed.

Lemma dist_origin_origin : _distanceFunc point_origin record_origin = Fin 0.
Proof.
  rewrite (distance_is_haversine point_origin record_origin 0 0 0 0);
    try reflexivity; try exact StringToNumber_0.
  now rewrite haversine_km_same.
Qed.

Lemma dist_origin_antimeridian :
  _distanceFunc point_origin record_antimeridian = Fin (6371 * PI).
Proof.
  rewrite (distance_is_haversine point_origin record_antimeridian 0 0 0 180);
    try reflexivity; try exact StringToNumber_0;
    try exact StringToNumber_180.
  now rewrite (proj1 haversine_km_half_turn).
Qed.

Lemma dist_antimeridian_origin :
  _distanceFunc point_antimeridian record_origin = Fin (6371 * PI).
Proof.
  rewrite (distance_is_haversine point_antimeridian record_origin 0 180 0 0);
    try reflexivity; try exact StringToNumber_0.
  now rewrite (proj2 haversine_km_half_turn).
Qed.

Lemma dist_antimeridian_antimeridian :
  _distanceFunc point_antimeridian record_antimeridian = Fin 0.
Proof.
  rewrite (distance_is_haversine
             point_antimeridian record_antimeridian 0 180 0 180);
    try reflexivity; try exact StringToNumber_0;
    try exact StringToNumber_180.
  now rewrite haversine_km_same.
Qed.

(** A latitude that is not a number makes every distance [NaN]. *)
Lemma dist_malformed (y : obj) : _distanceFunc point_malformed y = NaN.
Proof.
  unfold _distanceFunc, toRadians.
  change (ToNumber (get_prop point_malformed "latitude")) with NaN.
  destruct (ToNumber (get_prop y "latitude")); reflexivity.
Qed.

End Distance.

(** *** The line parser *)

(** The loop of the parser, unrolled: one property per schema column,
    in schema order. *)
Lemma parse_line_columns (line : string) :
  parse_line line
  = combine POSTALCODE_COLUMNS
      (map (column_or_null (split TAB line))
           (seq 0 (length POSTALCODE_COLUMNS))).
Proof. reflexivity. Qed.

Lemma column_or_null_missing (fields : list string) (i : nat) :
  (length fields <= i)%nat -> column_or_null fields i = VNull.
Proof.
  intros H. unfold column_or_null.
  now rewrite (proj2 (nth_error_None fields i) H).
Qed.

(** A column is a non-empty string or [null]: never a number, never the
    empty string. *)
Lemma column_or_null_shape (fields : list string) (i : nat) :
  column_or_null fields i = VNull \/
  exists s, column_or_null fields i = VStr s /\ s <> EmptyString.
Proof.
  unfold column_or_null. destruct (nth_error fields i) as [[|c s]|].
  - now left.
  - right. exists (String c s). split; [reflexivity | discriminate].
  - now left.
Qed.

Lemma parse_line_get (line : string) (i : nat) :
  (i < length POSTALCODE_COLUMNS)%nat ->
  get_prop (parse_line line) (nth i POSTALCODE_COLUMNS EmptyString)
  = column_or_null (split TAB line) i.
Proof.
  intros Hi. rewrite parse_line_columns.
  generalize (column_or_null (split TAB line)); intros f.
  simpl in Hi.
  do 12 (destruct i as [|i]; [reflexivity|]).
  lia.
Qed.

Lemma deref_app_new (h : store) (os : list obj) (j : nat) :
  deref (h ++ os) (length h + j) = deref os j.
Proof.
  unfold deref. rewrite app_nth2 by lia. f_equal. lia.
Qed.

(** *** The tree *)

Lemma insert_by_distance_length (e : ref * number) (l : list (ref * number)) :
  length (insert_by_distance e l) = S (length l).
Proof.
  induction l as [|c rest IH]; simpl; [reflexivity|].
  destruct (num_ltb (snd c) (snd e)); simpl; [now rewrite IH | reflexivity].
Qed.

Lemma sort_by_distance_length (l : list (ref * number)) :
  length (sort_by_distance l) = length l.
Proof.
  induction l as [|e rest IH]; simpl; [reflexivity|].
  now rewrite insert_by_distance_length, IH.
Qed.

Lemma nearest_length (h : store) (t : kdTree) (point : obj) (K : nat) :
  length (nearest h t point K) = Nat.min K (length (points t)).
Proof.
  unfold nearest.
  now rewrite length_firstn, sort_by_distance_length, length_map.
Qed.

Lemma nearest_empty (h : store) (t : kdTree) (point : obj) (K : nat) :
  points t = [] -> nearest h t point K = [].
Proof.
  intros Hn. unfold nearest. rewrite Hn. simpl. now destruct K.
Qed.

(** *** The steps of [_lookUp] *)

Lemma annotate_fold_refs (result : list (ref * number)) (h : store)
    (acc : list ref) :
  snd (fold_left annotate_step result (h, acc)) = acc ++ map fst result.
Proof.
  revert h acc. induction result as [|z rest IH]; intros h acc; simpl.
  - now rewrite app_nil_r.
  - rewrite IH. now rewrite <- app_assoc.
Qed.

(** What annotating does to the store: it keeps its size, it keeps
    every property but [distance], and it keeps the records it was not
    given. *)
Lemma annotate_fold_store (result : list (ref * number)) (h : store)
    (acc : list ref) :
  let h' := fst (fold_left annotate_step result (h, acc)) in
  length h' = length h /\
  (forall r k, k <> "distance"%string ->
     get_prop (deref h' r) k = get_prop (deref h r) k) /\
  (forall r, ~ In r (map fst result) -> deref h' r = deref h r).
Proof.
  revert h acc. induction result as [|z rest IH]; intros h acc; simpl.
  - auto.
  - specialize (IH (update h (fst z)
                      (fun o => set_prop o "distance" (VNum (snd z))))
                   (acc ++ [fst z])).
    simpl in IH. destruct IH as (Hlen & Hget & Hout).
    repeat split.
    + now rewrite Hlen, update_length.
    + intros r k Hk. rewrite Hget by exact Hk.
      apply get_prop_update_other. congruence.
    + intros r Hr. rewrite Hout by tauto.
      apply deref_update_other. tauto.
Qed.

Lemma lookup_point_refs (t : kdTree) (K : nat) (h : store) (point : obj) :
  snd (lookup_point t K h point) = map fst (nearest h t point K).
Proof.
  unfold lookup_point. destruct (nearest h t point K) as [|z rest] eqn:E.
  - reflexivity.
  - now rewrite annotate_fold_refs.
Qed.

Lemma lookup_point_length (t : kdTree) (K : nat) (h : store) (point : obj) :
  length (snd (lookup_point t K h point)) = Nat.min K (length (points t)).
Proof. now rewrite lookup_point_refs, length_map, nearest_length. Qed.

Lemma lookup_point_store (t : kdTree) (K : nat) (h : store) (point : obj) :
  let h' := fst (lookup_point t K h point) in
  length h' = length h /\
  (forall r k, k <> "distance"%string ->
     get_prop (deref h' r) k = get_prop (deref h r) k) /\
  (forall r, ~ In r (snd (lookup_point t K h point)) ->
     deref h' r = deref h r).
Proof.
  rewrite lookup_point_refs.
  unfold lookup_point. destruct (nearest h t point K) as [|z rest] eqn:E.
  - simpl. auto.
  - apply annotate_fold_store.
Qed.

Lemma series_acc (t : kdTree) (K : nat) (points : list obj) (h : store)
    (acc : list (list ref)) :
  fold_left
    (fun (acc : store * list (list ref)) point =>
       let (h1, results) := acc in
       let (h2, zipCodeList) := lookup_point t K h1 point in
       (h2, results ++ [zipCodeList]))
    points (h, acc)
  = (fst (series t K h points), acc ++ snd (series t K h points)).
Proof.
  unfold series. revert h acc.
  induction points as [|p ps IH]; intros h acc; simpl.
  - now rewrite app_nil_r.
  - destruct (lookup_point t K h p) as [h2 l] eqn:E.
    rewrite (IH h2 (acc ++ [l])). rewrite (IH h2 [l]). simpl.
    now rewrite <- app_assoc.
Qed.

Lemma series_nil (t : kdTree) (K : nat) (h : store) :
  series t K h [] = (h, []).
Proof. reflexivity. Qed.

(** The first function runs on the store as it is; the others run on
    the store the first one leaves. *)
Lemma series_cons (t : kdTree) (K : nat) (h : store) (p : obj)
    (ps : list obj) :
  series t K h (p :: ps)
  = (fst (series t K (fst (lookup_point t K h p)) ps),
     snd (lookup_point t K h p)
       :: snd (series t K (fst (lookup_point t K h p)) ps)).
Proof.
  unfold series at 1. simpl.
  destruct (lookup_point t K h p) as [h2 l]. simpl.
  now rewrite series_acc.
Qed.

Lemma series_results (t : kdTree) (K : nat) (ps : list obj) (h : store) :
  length (snd (series t K h ps)) = length ps /\
  Forall (fun l => length l = Nat.min K (length (points t)))
         (snd (series t K h ps)).
Proof.
  revert h. induction ps as [|p ps IH]; intros h.
  - rewrite series_nil. simpl. auto.
  - rewrite series_cons. simpl.
    destruct (IH (fst (lookup_point t K h p))) as [Hlen Hall].
    split; [now rewrite Hlen|].
    constructor; [apply lookup_point_length | exact Hall].
Qed.

Lemma series_store (t : kdTree) (K : nat) (ps : list obj) (h : store) :
  let h' := fst (series t K h ps) in
  length h' = length h /\
  (forall r k, k <> "distance"%string ->
     get_prop (deref h' r) k = get_prop (deref h r) k) /\
  (forall r, (forall l, In l (snd (series t K h ps)) -> ~ In r l) ->
     deref h' r = deref h r).
Proof.
  revert h. induction ps as [|p ps IH]; intros h.
  - rewrite series_nil. simpl. auto.
  - rewrite series_cons. simpl.
    destruct (lookup_point_store t K h p) as (Hlen1 & Hget1 & Hout1).
    destruct (IH (fst (lookup_point t K h p))) as (Hlen & Hget & Hout).
    repeat split.
    + now rewrite Hlen.
    + intros r k Hk. now rewrite Hget, Hget1.
    + intros r Hr. rewrite Hout.
      * apply Hout1. apply Hr. now left.
      * intros l Hl. apply Hr. now right.
Qed.

(** [lookUp] leaves the geocoder in the state [_lookUp] leaves it in,
    and hands over the first element of the results, if any. *)
Lemma lookUp_state (g : geocoder) (points : points_arg) (arg2 : option nat) :
  fst (lookUp g points arg2)
  = fst (_lookUp g points (match arg2 with None => 1%nat | Some k => k end)).
Proof.
  unfold lookUp.
  destruct (_lookUp g points _) as [g' args].
  destruct (res args) as [[|first rest]|]; reflexivity.
Qed.

Lemma lookUp_delivers_first (g : geocoder) (points : points_arg)
    (arg2 : option nat) :
  let args :=
    snd (_lookUp g points (match arg2 with None => 1%nat | Some k => k end)) in
  snd (lookUp g points arg2)
  = {| err := err args;
       res := match res args with
              | Some (first :: _) => Some first
              | _ => None
              end |}.
Proof.
  unfold lookUp.
  destruct (_lookUp g points _) as [g' args]. simpl.
  destruct (res args) as [[|first rest]|]; reflexivity.
Qed.

Lemma _lookUp_initialized (g : geocoder) (t : kdTree) (points : points_arg)
    (K : nat) :
  _kdTree g = Some t ->
  _lookUp g points K
  = ({| heap := fst (series t K (heap g) (points_of points));
        _kdTree := Some t |},
     {| err := None;
        res := Some (snd (series t K (heap g) (points_of points))) |}).
Proof.
  intros Ht. unfold _lookUp. rewrite Ht.
  now destruct (series t K (heap g) (points_of points)).
Qed.

(** *** Calls before initialisation *)

(** C2: a call of [lookUp] on a geocoder whose [_kdTree] is still
    [null] hands the callback the "not initialized" message as its
    error and no result, in the two-argument and in the three-argument
    form, for one point and for an array of points; the geocoder, store
    included, is left exactly as it was. *)
Theorem lookUp_not_initialized (g : geocoder) (points : points_arg)
    (arg2 : option nat) :
  _kdTree g = None ->
  lookUp g points arg2
  = (g, {| err := Some NOT_INITIALIZED; res := None |}).
Proof.
  intros Hnull. unfold lookUp, _lookUp. rewrite Hnull. reflexivity.
Qed.

Lemma lookUp_not_initialized_witness :
  _kdTree geocoder0 = None /\
  lookUp geocoder0 (Batch [point_origin; point_antimeridian]) (Some 5%nat)
  = (geocoder0, {| err := Some NOT_INITIALIZED; res := None |}).
Proof.
  split; [reflexivity | apply lookUp_not_initialized; reflexivity].
Defined.

(** *** The empty array of points *)

(** C10: on an initialised geocoder, [lookUp] called with an empty
    array of points calls back with a [null] error and without a result
    (the result is undefined, not an empty array), and the store is
    left as it was. *)
Theorem lookUp_empty_batch (g : geocoder) (t : kdTree) (arg2 : option nat) :
  _kdTree g = Some t ->
  snd (lookUp g (Batch []) arg2) = {| err := None; res := None |} /\
  heap (fst (lookUp g (Batch []) arg2)) = heap g.
Proof.
  intros Ht. rewrite lookUp_state, lookUp_delivers_first.
  rewrite (_lookUp_initialized g t (Batch []) _ Ht). simpl. auto.
Qed.

Lemma lookUp_empty_batch_witness :
  _kdTree index_two = Some (tree_of [0; 1]%nat) /\
  snd (lookUp index_two (Batch []) (Some 3%nat))
  = {| err := None; res := None |} /\
  heap (fst (lookUp index_two (Batch []) (Some 3%nat))) = heap index_two.
Proof.
  split; [reflexivity |].
  apply (lookUp_empty_batch index_two (tree_of [0; 1]%nat) (Some 3%nat)).
  reflexivity.
Defined.

(** *** The empty index *)

(** C8: on a geocoder whose tree holds no record, a lookup of a point,
    alone or at the head of an array, with any maximum or none, calls
    back with a [null] error and the empty array; and [_lookUp] gives
    the empty array for every point of an array. *)
Theorem lookUp_empty_index (g : geocoder) (t : kdTree) (point : obj)
    (rest : list obj) (arg2 : option nat) (K : nat) :
  _kdTree g = Some t ->
  points t = [] ->
  snd (lookUp g (Single point) arg2) = {| err := None; res := Some [] |} /\
  snd (lookUp g (Batch (point :: rest)) arg2)
  = {| err := None; res := Some [] |} /\
  snd (_lookUp g (Batch (point :: rest)) K)
  = {| err := None; res := Some (repeat [] (S (length rest))) |}.
Proof.
  intros Ht Hn.
  assert (Hpt : forall K h p, snd (lookup_point t K h p) = []).
  { intros K' h p. rewrite lookup_point_refs.
    now rewrite (nearest_empty h t p K' Hn). }
  assert (Hser : forall K ps h,
             snd (series t K h ps) = repeat [] (length ps)).
  { intros K' ps. induction ps as [|p ps IH]; intros h.
    - reflexivity.
    - rewrite series_cons. simpl. now rewrite Hpt, IH. }
  repeat split.
  - rewrite lookUp_delivers_first.
    rewrite (_lookUp_initialized g t (Single point) _ Ht). simpl.
    now rewrite series_cons, Hpt.
  - rewrite lookUp_delivers_first.
    rewrite (_lookUp_initialized g t (Batch (point :: rest)) _ Ht). simpl.
    now rewrite series_cons, Hpt.
  - rewrite (_lookUp_initialized g t (Batch (point :: rest)) _ Ht). simpl.
    now rewrite Hser.
Qed.

Lemma lookUp_empty_index_witness :
  _kdTree index_empty = Some (tree_of []) /\
  points (tree_of []) = [] /\
  snd (lookUp index_empty (Single point_origin) (Some 4%nat))
  = {| err := None; res := Some [] |} /\
  snd (lookUp index_empty (Batch [point_origin; point_antimeridian])
         (Some 4%nat))
  = {| err := None; res := Some [] |} /\
  snd (_lookUp index_empty (Batch [point_origin; point_antimeridian]) 4)
  = {| err := None; res := Some [[]; []] |}.
Proof.
  split; [reflexivity |]. split; [reflexivity |].
  apply (lookUp_empty_index index_empty (tree_of []) point_origin
           [point_antimeridian] (Some 4%nat) 4); reflexivity.
Defined.

(** *** The number of results *)

(** C4: on a geocoder whose tree holds n records, the result handed
    over for a point looked up with maximum K has exactly min(K, n)
    elements; so all n records come back when K exceeds n. The same
    holds of each of the result arrays [_lookUp] computes for the
    points of an array, of which there is one per point. Neither n nor
    K needs to be positive for this. *)
Theorem lookUp_result_length (g : geocoder) (t : kdTree) (point : obj)
    (batch : list obj) (K : nat) :
  _kdTree g = Some t ->
  (exists l,
      snd (lookUp g (Single point) (Some K))
      = {| err := None; res := Some l |} /\
      length l = Nat.min K (length (points t))) /\
  (exists results,
      snd (_lookUp g (Batch batch) K)
      = {| err := None; res := Some results |} /\
      length results = length batch /\
      Forall (fun l => length l = Nat.min K (length (points t))) results).
Proof.
  intros Ht. split.
  - exists (snd (lookup_point t K (heap g) point)). split.
    + rewrite lookUp_delivers_first.
      rewrite (_lookUp_initialized g t (Single point) _ Ht). simpl.
      now rewrite series_cons.
    + apply lookup_point_length.
  - exists (snd (series t K (heap g) batch)). split.
    + now rewrite (_lookUp_initialized g t (Batch batch) _ Ht).
    + apply series_results.
Qed.

Lemma lookUp_result_length_witness :
  _kdTree index_two = Some (tree_of [0; 1]%nat) /\
  (exists l,
      snd (lookUp index_two (Single point_origin) (Some 5%nat))
      = {| err := None; res := Some l |} /\
      length l = 2%nat) /\
  (exists results,
      snd (_lookUp index_two (Batch [point_origin; point_malformed]) 5)
      = {| err := None; res := Some results |} /\
      length results = 2%nat /\
      Forall (fun l => length l = 2%nat) results).
Proof.
  split; [reflexivity |].
  apply (lookUp_result_length index_two (tree_of [0; 1]%nat) point_origin
           [point_origin; point_malformed] 5).
  reflexivity.
Defined.

(** *** Ingestion *)

(** C9: ingestion turns every line into a record, whatever the other
    lines are, and the tree holds them all in the order of the lines;
    and in the record of a line, every schema column the line has no
    field for is [null]. *)
Theorem parse_missing_column_is_null (lines : list string) (g : geocoder)
    (j i : nat) :
  (j < length lines)%nat ->
  (i < length POSTALCODE_COLUMNS)%nat ->
  (length (split TAB (nth j lines EmptyString)) <= i)%nat ->
  let g' := _parseGeoNamesPostalCodesCsv lines g in
  heap g' = heap g ++ map parse_line lines /\
  option_map points (_kdTree g')
  = Some (seq (length (heap g)) (length lines)) /\
  deref (heap g') (length (heap g) + j)
  = parse_line (nth j lines EmptyString) /\
  get_prop (deref (heap g') (length (heap g) + j))
           (nth i POSTALCODE_COLUMNS EmptyString)
  = VNull.
Proof.
  intros Hj Hi Hshort g'.
  assert (Hrec : deref (heap g') (length (heap g) + j)
                 = parse_line (nth j lines EmptyString)).
  { unfold g', _parseGeoNamesPostalCodesCsv. simpl.
    rewrite deref_app_new. unfold deref.
    rewrite (nth_indep _ [] (parse_line EmptyString))
      by (now rewrite length_map).
    apply (map_nth parse_line). }
  repeat split.
  - unfold g', _parseGeoNamesPostalCodesCsv. simpl.
    now rewrite length_map.
  - exact Hrec.
  - rewrite Hrec, parse_line_get by exact Hi.
    now apply column_or_null_missing.
Qed.

Lemma parse_missing_column_is_null_witness :
  (0 < length [line_short; line_origin])%nat /\
  (9 < length POSTALCODE_COLUMNS)%nat /\
  (length (split TAB line_short) <= 9)%nat /\
  let g' := _parseGeoNamesPostalCodesCsv [line_short; line_origin] index_one in
  heap g' = heap index_one ++ map parse_line [line_short; line_origin] /\
  option_map points (_kdTree g') = Some [1; 2]%nat /\
  deref (heap g') 1 = parse_line line_short /\
  get_prop (deref (heap g') 1) "latitude" = VNull.
Proof.
  split; [simpl; lia |]. split; [simpl; lia |]. split; [simpl; lia |].
  apply (parse_missing_column_is_null [line_short; line_origin] index_one
           0 9).
  - simpl. lia.
  - simpl. lia.
  - simpl. lia.
Defined.

(** *** What a lookup leaves behind *)

(** Records that no point of the call got back are left as they were. *)
Lemma lookUp_untouched_records (g : geocoder) (t : kdTree)
    (points : points_arg) (arg2 : option nat) (r : ref) :
  _kdTree g = Some t ->
  (forall l,
      In l (snd (series t (match arg2 with None => 1%nat | Some k => k end)
                        (heap g) (points_of points))) ->
      ~ In r l) ->
  deref (heap (fst (lookUp g points arg2))) r = deref (heap g) r.
Proof.
  intros Ht Hr. rewrite lookUp_state.
  rewrite (_lookUp_initialized g t points _ Ht). simpl.
  now apply series_store.
Qed.

(** C6, as the code has it: a lookup changes neither the tree nor the
    number of stored records, and it changes no property of any stored
    record other than [distance]. *)
Theorem lookUp_frame (g : geocoder) (points : points_arg)
    (arg2 : option nat) (r : ref) (k : string) :
  k <> "distance"%string ->
  let g' := fst (lookUp g points arg2) in
  _kdTree g' = _kdTree g /\
  length (heap g') = length (heap g) /\
  get_prop (deref (heap g') r) k = get_prop (deref (heap g) r) k.
Proof.
  intros Hk g'. unfold g'. rewrite lookUp_state.
  destruct (_kdTree g) as [t|] eqn:Ht.
  - rewrite (_lookUp_initialized g t points _ Ht). simpl.
    destruct (series_store t (match arg2 with None => 1%nat | Some k => k end)
                (points_of points) (heap g)) as (Hlen & Hget & _).
    repeat split; [exact Hlen | now apply Hget].
  - unfold _lookUp. rewrite Ht. simpl. auto.
Qed.

Lemma lookUp_frame_witness :
  "postalCode"%string <> "distance"%string /\
  let g' := fst (lookUp index_one (Single point_antimeridian) None) in
  _kdTree g' = _kdTree index_one /\
  length (heap g') = length (heap index_one) /\
  get_prop (deref (heap g') 0) "postalCode"
  = get_prop (deref (heap index_one) 0) "postalCode".
Proof.
  split; [discriminate |].
  apply (lookUp_frame index_one (Single point_antimeridian) None 0).
  discriminate.
Defined.

(** *** Errors of single points *)

(** C7, as the code has it: on an initialised geocoder the coordinates
    of the query points are not checked; whatever they are, the error
    handed to the callback is [null], and [_lookUp] computes one result
    array for each point of the call. *)
Theorem lookUp_never_reports_point_error (g : geocoder) (t : kdTree)
    (points : points_arg) (arg2 : option nat) (K : nat) :
  _kdTree g = Some t ->
  err (snd (lookUp g points arg2)) = None /\
  exists results,
    snd (_lookUp g points K) = {| err := None; res := Some results |} /\
    length results = length (points_of points).
Proof.
  intros Ht. split.
  - rewrite lookUp_delivers_first.
    now rewrite (_lookUp_initialized g t points _ Ht).
  - exists (snd (series t K (heap g) (points_of points))). split.
    + now rewrite (_lookUp_initialized g t points _ Ht).
    + apply series_results.
Qed.

Lemma lookUp_never_reports_point_error_witness :
  _kdTree index_two = Some (tree_of [0; 1]%nat) /\
  err (snd (lookUp index_two (Batch [point_malformed; point_origin]) None))
  = None /\
  exists results,
    snd (_lookUp index_two (Batch [point_malformed; point_origin]) 1)
    = {| err := None; res := Some results |} /\
    length results = 2%nat.
Proof.
  split; [reflexivity |].
  apply (lookUp_never_reports_point_error index_two (tree_of [0; 1]%nat)
           (Batch [point_malformed; point_origin]) None 1).
  reflexivity.
Defined.

(** *** Lookups on the sample indices *)

Section SampleLookups.
Local Open Scope R_scope.

Lemma lookup_point_fold (t : kdTree) (K : nat) (h : store) (point : obj) :
  lookup_point t K h point
  = fold_left annotate_step (nearest h t point K) (h, []).
Proof.
  unfold lookup_point. now destruct (nearest h t point K).
Qed.

Lemma nearest_one (o : obj) (point : obj) (K : nat) :
  nearest [o] (tree_of [0%nat]) point K
  = firstn K [(0%nat, _distanceFunc point o)].
Proof. reflexivity. Qed.

Lemma nearest_two_ordered (o0 o1 point : obj) (K : nat) (x y : R) :
  _distanceFunc point o0 = Fin x ->
  _distanceFunc point o1 = Fin y ->
  x <= y ->
  nearest [o0; o1] (tree_of [0; 1]%nat) point K
  = firstn K [(0%nat, Fin x); (1%nat, Fin y)].
Proof.
  intros H0 H1 Hxy. unfold nearest.
  cbn [tree_of points createKdTree map deref nth metric]. rewrite H0, H1.
  cbn [sort_by_distance insert_by_distance snd].
  now rewrite num_ltb_ge.
Qed.

Lemma nearest_two_swapped (o0 o1 point : obj) (K : nat) (x y : R) :
  _distanceFunc point o0 = Fin x ->
  _distanceFunc point o1 = Fin y ->
  y < x ->
  nearest [o0; o1] (tree_of [0; 1]%nat) point K
  = firstn K [(1%nat, Fin y); (0%nat, Fin x)].
Proof.
  intros H0 H1 Hxy. unfold nearest.
  cbn [tree_of points createKdTree map deref nth metric]. rewrite H0, H1.
  cbn [sort_by_distance insert_by_distance snd].
  now rewrite num_ltb_lt.
Qed.

Lemma nearest_two_nan (o0 o1 point : obj) (K : nat) :
  _distanceFunc point o0 = NaN ->
  nearest [o0; o1] (tree_of [0; 1]%nat) point K
  = firstn K [(0%nat, NaN); (1%nat, _distanceFunc point o1)].
Proof.
  intros H0. unfold nearest.
  cbn [tree_of points createKdTree map deref nth metric]. rewrite H0.
  cbn [sort_by_distance insert_by_distance snd].
  now destruct (_distanceFunc point o1).
Qed.

Lemma index_one_state :
  index_one = {| heap := [record_origin]; _kdTree := Some (tree_of [0%nat]) |}.
Proof. reflexivity. Qed.

Lemma index_two_state :
  index_two
  = {| heap := [record_origin; record_antimeridian];
       _kdTree := Some (tree_of [0; 1]%nat) |}.
Proof. reflexivity. Qed.

(** The two points, each asking for its nearest record. *)
Lemma batch_nearest_one :
  _lookUp index_two (Batch [point_origin; point_antimeridian]) 1
  = ({| heap :=
          [ set_prop record_origin "distance" (VNum (Fin 0));
            set_prop record_antimeridian "distance" (VNum (Fin 0)) ];
        _kdTree := Some (tree_of [0; 1]%nat) |},
     {| err := None; res := Some [[0%nat]; [1%nat]] |}).
Proof.
  rewrite (_lookUp_initialized index_two (tree_of [0; 1]%nat) _ _ eq_refl).
  rewrite index_two_state. cbn [heap points_of].
  rewrite series_cons, lookup_point_fold.
  rewrite (nearest_two_ordered _ _ _ 1 _ _ dist_origin_origin
             dist_origin_antimeridian)
    by (pose proof half_turn_pos; lra).
  cbn [firstn fold_left annotate_step update fst snd app].
  rewrite series_cons, lookup_point_fold.
  rewrite (nearest_two_swapped _ _ _ 1 (6371 * PI) 0);
    [ | rewrite distance_ignores_annotation; apply dist_antimeridian_origin
      | apply dist_antimeridian_antimeridian
      | apply half_turn_pos ].
  reflexivity.
Qed.

(** The two points on the index of one record, in the two-argument
    form of the call. *)
Lemma batch_one_record :
  lookUp index_one (Batch [point_origin; point_antimeridian]) None
  = ({| heap :=
          [ set_prop (set_prop record_origin "distance" (VNum (Fin 0)))
                     "distance" (VNum (Fin (6371 * PI))) ];
        _kdTree := Some (tree_of [0%nat]) |},
     {| err := None; res := Some [0%nat] |}).
Proof.
  unfold lookUp.
  rewrite (_lookUp_initialized index_one (tree_of [0%nat]) _ _ eq_refl).
  rewrite index_one_state. cbn [heap points_of].
  rewrite series_cons, lookup_point_fold, nearest_one, dist_origin_origin.
  cbn [firstn fold_left annotate_step update fst snd app].
  rewrite series_cons, lookup_point_fold, nearest_one.
  rewrite distance_ignores_annotation, dist_antimeridian_origin.
  reflexivity.
Qed.

Lemma single_one_record :
  lookUp index_one (Single point_antimeridian) None
  = ({| heap :=
          [ set_prop record_origin "distance" (VNum (Fin (6371 * PI))) ];
        _kdTree := Some (tree_of [0%nat]) |},
     {| err := None; res := Some [0%nat] |}).
Proof.
  unfold lookUp.
  rewrite (_lookUp_initialized index_one (tree_of [0%nat]) _ _ eq_refl).
  rewrite index_one_state. cbn [heap points_of].
  rewrite series_cons, lookup_point_fold, nearest_one.
  rewrite dist_antimeridian_origin.
  reflexivity.
Qed.

Lemma batch_malformed :
  _lookUp index_two (Batch [point_malformed; point_origin]) 1
  = ({| heap :=
          [ set_prop (set_prop record_origin "distance" (VNum NaN))
                     "distance" (VNum (Fin 0));
            record_antimeridian ];
        _kdTree := Some (tree_of [0; 1]%nat) |},
     {| err := None; res := Some [[0%nat]; [0%nat]] |}).
Proof.
  rewrite (_lookUp_initialized index_two (tree_of [0; 1]%nat) _ _ eq_refl).
  rewrite index_two_state. cbn [heap points_of].
  rewrite series_cons, lookup_point_fold.
  rewrite (nearest_two_nan _ _ _ 1 (dist_malformed _)).
  cbn [firstn fold_left annotate_step update fst snd app].
  rewrite series_cons, lookup_point_fold.
  rewrite (nearest_two_ordered _ _ _ 1 0 (6371 * PI));
    [ | rewrite distance_ignores_annotation; apply dist_origin_origin
      | apply dist_origin_antimeridian
      | pose proof half_turn_pos; lra ].
  reflexivity.
Qed.

End SampleLookups.

(** *** Lookups of one point *)

Lemma insert_by_distance_perm (e : ref * number) (l : list (ref * number)) :
  Permutation (insert_by_distance e l) (e :: l).
Proof.
  induction l as [|c rest IH]; simpl; [apply Permutation_refl|].
  destruct (num_ltb (snd c) (snd e)); [|apply Permutation_refl].
  eapply perm_trans; [apply perm_skip, IH | apply perm_swap].
Qed.

Lemma sort_by_distance_perm (l : list (ref * number)) :
  Permutation (sort_by_distance l) l.
Proof.
  induction l as [|e rest IH]; simpl; [apply perm_nil|].
  eapply perm_trans; [apply insert_by_distance_perm | now apply perm_skip].
Qed.

Lemma firstn_In (A : Type) (K : nat) (l : list A) (x : A) :
  In x (firstn K l) -> In x l.
Proof.
  intros H. rewrite <- (firstn_skipn K l). apply in_or_app. now left.
Qed.

Lemma firstn_NoDup (A : Type) (K : nat) (l : list A) :
  NoDup l -> NoDup (firstn K l).
Proof.
  intros H. rewrite <- (firstn_skipn K l) in H.
  now apply NoDup_app_remove_r in H.
Qed.

(** Every candidate is a record of the tree with its distance to the
    point under the metric of the tree, and every record comes at most
    as often as the tree holds it. *)
Lemma nearest_In (h : store) (t : kdTree) (point : obj) (K : nat)
    (z : ref * number) :
  In z (nearest h t point K) ->
  In (fst z) (points t) /\ snd z = metric t point (deref h (fst z)).
Proof.
  unfold nearest. intros H. apply firstn_In in H.
  apply (Permutation_in _ (sort_by_distance_perm _)) in H.
  apply in_map_iff in H. destruct H as (r & <- & Hr). simpl. auto.
Qed.

Lemma nearest_NoDup (h : store) (t : kdTree) (point : obj) (K : nat) :
  NoDup (points t) -> NoDup (map fst (nearest h t point K)).
Proof.
  intros Hnd. unfold nearest. rewrite <- firstn_map. apply firstn_NoDup.
  eapply Permutation_NoDup.
  - apply Permutation_sym, Permutation_map, sort_by_distance_perm.
  - rewrite map_map. simpl. now rewrite map_id.
Qed.

(** Annotating distinct records of the store: each ends up with the
    distance it came with. *)
Lemma annotate_fold_distance (result : list (ref * number)) (h : store)
    (acc : list ref) (z : ref * number) :
  NoDup (map fst result) ->
  (forall z', In z' result -> (fst z' < length h)%nat) ->
  In z result ->
  get_prop (deref (fst (fold_left annotate_step result (h, acc))) (fst z))
           "distance"
  = VNum (snd z).
Proof.
  revert h acc. induction result as [|z0 rest IH]; intros h acc Hnd Hin Hz.
  - contradiction.
  - cbn [fold_left annotate_step]. cbn [map] in Hnd.
    apply NoDup_cons_iff in Hnd. destruct Hnd as [Hfresh Hnd].
    destruct Hz as [->|Hz].
    + destruct (annotate_fold_store rest
                  (update h (fst z)
                     (fun o => set_prop o "distance" (VNum (snd z))))
                  (acc ++ [fst z])) as (_ & _ & Hout).
      rewrite Hout by exact Hfresh.
      rewrite deref_update_same by (apply Hin; now left).
      apply get_set_prop_same.
    + apply IH; [exact Hnd | | exact Hz].
      intros z' Hz'. rewrite update_length. apply Hin. now right.
Qed.

(** The distances read off the result of a single step are those the
    tree computed, in its order. *)
Lemma lookup_point_distances (t : kdTree) (K : nat) (h : store)
    (point : obj) :
  NoDup (points t) ->
  (forall r, In r (points t) -> (r < length h)%nat) ->
  map (fun r => get_prop (deref (fst (lookup_point t K h point)) r)
                         "distance")
      (snd (lookup_point t K h point))
  = map (fun z => VNum (snd z)) (nearest h t point K).
Proof.
  intros Hnd Hrange. rewrite lookup_point_refs, lookup_point_fold, map_map.
  apply map_ext_in. intros z Hz.
  apply annotate_fold_distance.
  - now apply nearest_NoDup.
  - intros z' Hz'. apply Hrange. now apply (nearest_In h t point K).
  - exact Hz.
Qed.

(** A lookup of one point, on a geocoder whose tree refers to distinct
    records of the store: the callback receives the records the tree
    found, in the order of the tree, each carrying its distance to the
    point under the metric of the tree. *)
Theorem lookUp_single_point (g : geocoder) (t : kdTree) (point : obj)
    (arg2 : option nat) :
  _kdTree g = Some t ->
  NoDup (points t) ->
  (forall r, In r (points t) -> (r < length (heap g))%nat) ->
  exists (l : list ref) (ds : list number),
    snd (lookUp g (Single point) arg2) = {| err := None; res := Some l |} /\
    distances (fst (lookUp g (Single point) arg2)) l = map VNum ds /\
    ds = map (fun r => metric t point (deref (heap g) r)) l.
Proof.
  intros Ht Hnd Hrange.
  set (K := match arg2 with None => 1%nat | Some k => k end).
  exists (snd (lookup_point t K (heap g) point)),
         (map snd (nearest (heap g) t point K)).
  split; [| split].
  - rewrite lookUp_delivers_first.
    rewrite (_lookUp_initialized g t (Single point) _ Ht). simpl.
    now rewrite series_cons.
  - rewrite lookUp_state.
    rewrite (_lookUp_initialized g t (Single point) _ Ht). simpl.
    rewrite series_cons, series_nil. unfold distances. cbn [fst heap].
    fold K. rewrite (lookup_point_distances t K (heap g) point Hnd Hrange).
    now rewrite map_map.
  - rewrite lookup_point_refs, map_map. apply map_ext_in.
    intros z Hz. now apply (nearest_In (heap g) t point K).
Qed.

Lemma lookUp_single_point_witness :
  exists (l : list ref) (ds : list number),
    snd (lookUp index_two (Single point_antimeridian) (Some 2%nat))
    = {| err := None; res := Some l |} /\
    distances (fst (lookUp index_two (Single point_antimeridian)
                           (Some 2%nat))) l
    = map VNum ds /\
    ds = map (fun r => _distanceFunc point_antimeridian
                         (deref (heap index_two) r)) l.
Proof.
  apply (lookUp_single_point index_two (tree_of [0; 1]%nat)
           point_antimeridian (Some 2%nat)).
  - reflexivity.
  - repeat constructor; simpl; intuition congruence.
  - simpl. intros r [<-|[<-|[]]]; lia.
Defined.


(** *** Arrays of points *)

Section Arrays.
Local Open Scope R_scope.

(** C1, on two indexed records and an array of two points asking for
    one result each: [_lookUp] computes one result array per point, the
    record at the origin for the first point and the record at the
    antimeridian for the second, but the callback of [lookUp] receives
    the first of these arrays alone; the result of the second point is
    not handed over. *)
Theorem lookUp_batch_delivers_first_only :
  let points := Batch [point_origin; point_antimeridian] in
  snd (_lookUp index_two points 1)
  = {| err := None; res := Some [[0%nat]; [1%nat]] |} /\
  snd (lookUp index_two points (Some 1%nat))
  = {| err := None; res := Some [0%nat] |}.
Proof.
  cbv zeta. split.
  - now rewrite batch_nearest_one.
  - rewrite lookUp_delivers_first. now rewrite batch_nearest_one.
Qed.

(** C5, on one indexed record and an array of two points in the
    two-argument form of the call: the callback receives the result of
    the first point, the record at the origin, for a query point at the
    origin; the haversine distance between them is [0], yet the
    distance read off the record is [6371 * PI], that of the second
    point. *)
Theorem lookUp_batch_distance_of_other_point :
  let out :=
    lookUp index_one (Batch [point_origin; point_antimeridian]) None in
  snd out = {| err := None; res := Some [0%nat] |} /\
  distances (fst out) [0%nat] = [VNum (Fin (6371 * PI))] /\
  _distanceFunc point_origin record_origin = Fin (haversine_km 0 0 0 0) /\
  haversine_km 0 0 0 0 = 0 /\
  _distanceFunc point_antimeridian record_origin = Fin (6371 * PI) /\
  6371 * PI <> 0.
Proof.
  cbv zeta. rewrite batch_one_record.
  split; [reflexivity |]. split; [| split; [| split; [| split]]].
  - unfold distances. cbn [fst heap map deref nth].
    now rewrite get_set_prop_same.
  - rewrite haversine_km_same. apply dist_origin_origin.
  - apply haversine_km_same.
  - apply dist_antimeridian_origin.
  - pose proof half_turn_pos. lra.
Qed.

(** C6 fails as stated: a lookup of one point on the index of one
    record writes the [distance] property, absent until then, into the
    stored record. *)
Lemma lookUp_writes_stored_record :
  let g' := fst (lookUp index_one (Single point_antimeridian) None) in
  get_prop (deref (heap index_one) 0%nat) "distance" = VUndefined /\
  get_prop (deref (heap g') 0%nat) "distance" = VNum (Fin (6371 * PI)) /\
  heap g' <> heap index_one.
Proof.
  cbv zeta. rewrite single_one_record. cbn [fst heap].
  assert (H0 : get_prop (deref (heap index_one) 0%nat) "distance"
               = VUndefined)
    by reflexivity.
  assert (H1 : get_prop
                 (deref [set_prop record_origin "distance"
                           (VNum (Fin (6371 * PI)))] 0%nat) "distance"
               = VNum (Fin (6371 * PI))).
  { cbn [deref nth]. apply get_set_prop_same. }
  split; [exact H0 |]. split; [exact H1 |].
  intros Heq. rewrite Heq, H0 in H1. discriminate.
Qed.

Lemma point_malformed_invalid : ~ valid_point point_malformed.
Proof.
  intros (lat & lon & Hlat & _). vm_compute in Hlat. discriminate.
Qed.

(** C7 fails as stated: in an array of two points whose first has a
    latitude that is not a number and a longitude of 1000, no error is
    raised for the first point; it gets a result array like any other,
    and the error handed to the callback is [null]. *)
Lemma lookUp_malformed_point_no_error :
  let points := Batch [point_malformed; point_origin] in
  ~ valid_point point_malformed /\
  snd (_lookUp index_two points 1)
  = {| err := None; res := Some [[0%nat]; [0%nat]] |} /\
  snd (lookUp index_two points (Some 1%nat))
  = {| err := None; res := Some [0%nat] |}.
Proof.
  cbv zeta. split; [exact point_malformed_invalid |]. split.
  - now rewrite batch_malformed.
  - rewrite lookUp_delivers_first. now rewrite batch_malformed.
Qed.

End Arrays.

(** *** The distance function as a metric *)

Section Metric.
Local Open Scope R_scope.

Lemma hav_sym (lat1 lon1 lat2 lon2 : R) :
  hav lat1 lon1 lat2 lon2 = hav lat2 lon2 lat1 lon1.
Proof.
  unfold hav.
  replace ((lat1 - lat2) * PI / 180 / 2)
    with (- ((lat2 - lat1) * PI / 180 / 2)) by field.
  replace ((lon1 - lon2) * PI / 180 / 2)
    with (- ((lon2 - lon1) * PI / 180 / 2)) by field.
  rewrite !sin_neg. ring.
Qed.

(** One coordinate that is not a number is enough for the distance not
    to be one. *)
Lemma distance_not_numeric (x y : obj) :
  ToNumber (get_prop x "latitude") = NaN \/
  ToNumber (get_prop x "longitude") = NaN \/
  ToNumber (get_prop y "latitude") = NaN \/
  ToNumber (get_prop y "longitude") = NaN ->
  _distanceFunc x y = NaN.
Proof.
  intros H. unfold _distanceFunc, toRadians.
  destruct (ToNumber (get_prop x "latitude")) as [|lat1],
           (ToNumber (get_prop x "longitude")) as [|lon1],
           (ToNumber (get_prop y "latitude")) as [|lat2],
           (ToNumber (get_prop y "longitude")) as [|lon2];
    try reflexivity.
  destruct H as [H|[H|[H|H]]]; discriminate.
Qed.

(** X1: [_distanceFunc] is symmetric: the distance from [x] to [y] is
    the distance from [y] to [x], for all objects, with or without
    numeric coordinates. *)
Theorem distance_symmetric (x y : obj) :
  _distanceFunc x y = _distanceFunc y x.
Proof.
  destruct (ToNumber (get_prop x "latitude")) as [|lat1] eqn:E1;
    [rewrite !distance_not_numeric; tauto |].
  destruct (ToNumber (get_prop x "longitude")) as [|lon1] eqn:E2;
    [rewrite !distance_not_numeric; tauto |].
  destruct (ToNumber (get_prop y "latitude")) as [|lat2] eqn:E3;
    [rewrite !distance_not_numeric; tauto |].
  destruct (ToNumber (get_prop y "longitude")) as [|lon2] eqn:E4;
    [rewrite !distance_not_numeric; tauto |].
  rewrite (distance_is_haversine x y lat1 lon1 lat2 lon2 E1 E2 E3 E4).
  rewrite (distance_is_haversine y x lat2 lon2 lat1 lon1 E3 E4 E1 E2).
  unfold haversine_km. now rewrite hav_sym.
Qed.

(** X2: a point or a record that has no [latitude] or no [longitude]
    property has no distance: [_distanceFunc] returns [NaN] for it,
    whatever the other argument is, and in either argument position. *)
Theorem distance_missing_coordinate (x y : obj) :
  get_prop x "latitude" = VUndefined \/
  get_prop x "longitude" = VUndefined ->
  _distanceFunc x y = NaN /\ _distanceFunc y x = NaN.
Proof.
  intros H.
  assert (Hx : ToNumber (get_prop x "latitude") = NaN \/
               ToNumber (get_prop x "longitude") = NaN)
    by (destruct H as [-> | ->]; [now left | now right]).
  split; apply distance_not_numeric; tauto.
Qed.

Lemma distance_missing_coordinate_witness :
  _distanceFunc [ ("longitude"%string, VNum (Fin 3)) ] record_origin = NaN /\
  _distanceFunc record_origin [ ("longitude"%string, VNum (Fin 3)) ] = NaN.
Proof.
  apply distance_missing_coordinate. left. reflexivity.
Defined.

(** X3: two objects whose coordinates convert to the same numbers,
    a latitude within [-90, 90] and a longitude within [-180, 180], are
    at distance 0: a point queried at the coordinates of a record is at
    distance 0 from it. *)
Theorem distance_zero_on_equal_coordinates (x y : obj) (lat lon : R) :
  -90 <= lat <= 90 ->
  -180 <= lon <= 180 ->
  ToNumber (get_prop x "latitude") = Fin lat ->
  ToNumber (get_prop x "longitude") = Fin lon ->
  ToNumber (get_prop y "latitude") = Fin lat ->
  ToNumber (get_prop y "longitude") = Fin lon ->
  _distanceFunc x y = Fin 0.
Proof.
  intros _ _ E1 E2 E3 E4.
  rewrite (distance_is_haversine x y lat lon lat lon E1 E2 E3 E4).
  now rewrite haversine_km_same.
Qed.

Lemma distance_zero_on_equal_coordinates_witness :
  _distanceFunc point_antimeridian record_antimeridian = Fin 0.
Proof.
  apply (distance_zero_on_equal_coordinates
           point_antimeridian record_antimeridian 0 180).
  - lra.
  - lra.
  - reflexivity.
  - reflexivity.
  - exact StringToNumber_0.
  - exact StringToNumber_180.
Defined.



End Metric.

(** *** Lines written field by field *)

Import Fields.

Lemma split_nonempty (sep : ascii) (s : string) : split sep s <> [].
Proof.
  destruct s as [|c rest]; simpl; [discriminate|].
  destruct (split sep rest); [discriminate|].
  destruct (Ascii.eqb c sep); discriminate.
Qed.

Lemma split_field (f rest : string) :
  tab_free f = true ->
  split TAB (f ++ String TAB rest) = f :: split TAB rest.
Proof.
  induction f as [|c f IH]; intros Hf; cbn [String.append split].
  - rewrite Ascii.eqb_refl.
    destruct (split TAB rest) eqn:E; [now apply split_nonempty in E|].
    reflexivity.
  - cbn [tab_free] in Hf. apply andb_prop in Hf. destruct Hf as [Hc Hf].
    rewrite (IH Hf). apply negb_true_iff in Hc. now rewrite Hc.
Qed.

Lemma split_last_field (f : string) :
  tab_free f = true -> split TAB f = [f].
Proof.
  induction f as [|c f IH]; intros Hf; cbn [split]; [reflexivity|].
  cbn [tab_free] in Hf. apply andb_prop in Hf. destruct Hf as [Hc Hf].
  rewrite (IH Hf). apply negb_true_iff in Hc. now rewrite Hc.
Qed.

(** Splitting the line written from tab-free fields gives the fields
    back. *)
Lemma split_tsv (fields : list string) :
  fields <> [] ->
  forallb tab_free fields = true ->
  split TAB (tsv fields) = fields.
Proof.
  unfold tsv. induction fields as [|f rest IH]; intros Hne Hall.
  - contradiction.
  - simpl in Hall. apply andb_prop in Hall. destruct Hall as [Hf Hrest].
    destruct rest as [|f' rest'].
    + simpl. now apply split_last_field.
    + change (String.concat (String TAB EmptyString) (f :: f' :: rest'))
        with (f ++ String TAB
                (String.concat (String TAB EmptyString) (f' :: rest')))%string.
      rewrite (split_field _ _ Hf). f_equal.
      apply IH; [discriminate | exact Hrest].
Qed.

(** X6: writing tab-free fields into a line and parsing the line gives
    every schema column its field back as a string; a column whose field
    is empty, or beyond the last field, is [null]. *)
Theorem parse_line_round_trip (fields : list string) (i : nat) :
  fields <> [] ->
  forallb tab_free fields = true ->
  (i < length POSTALCODE_COLUMNS)%nat ->
  get_prop (parse_line (tsv fields)) (nth i POSTALCODE_COLUMNS EmptyString)
  = match nth_error fields i with
    | Some (String c s) => VStr (String c s)
    | _ => VNull
    end.
Proof.
  intros Hne Hall Hi.
  rewrite parse_line_get by exact Hi.
  rewrite split_tsv by assumption.
  unfold column_or_null. now destruct (nth_error fields i) as [[|c s]|].
Qed.

Lemma parse_line_round_trip_witness :
  get_prop
    (parse_line (tsv [ "US"; "10018"; "New York City"; "New York"; "NY";
                       "New York"; "061"; ""; ""; "40.7547"; "-73.9925";
                       "" ]%string))
    "longitude"
  = VStr "-73.9925".
Proof.
  apply (parse_line_round_trip
           [ "US"; "10018"; "New York City"; "New York"; "NY";
             "New York"; "061"; ""; ""; "40.7547"; "-73.9925";
             "" ]%string 10).
  - discriminate.
  - reflexivity.
  - simpl. lia.
Defined.

Lemma get_prop_absent (o : obj) (k : string) :
  ~ In k (map fst o) -> get_prop o k = VUndefined.
Proof.
  induction o as [|[k' v] rest IH]; simpl; intros Hk; [reflexivity|].
  destruct (String.eqb k' k) eqn:E.
  - apply String.eqb_eq in E. tauto.
  - apply IH. tauto.
Qed.

(** X7: whatever the line, and however many fields it has, the
    properties its record was given are the twelve schema columns, in
    schema order, and no other; in particular it has no [distance]
    before a lookup writes one. *)
Theorem parse_line_schema (line : string) :
  map fst (parse_line line) = POSTALCODE_COLUMNS /\
  get_prop (parse_line line) "distance" = VUndefined.
Proof.
  assert (Hkeys : map fst (parse_line line) = POSTALCODE_COLUMNS)
    by reflexivity.
  split; [exact Hkeys |].
  apply get_prop_absent. rewrite Hkeys. simpl. intuition discriminate.
Qed.

(** *** Lookups one after the other *)

(** Stores that agree on the coordinates of the records give the same
    candidates. *)
Lemma nearest_coordinates (h h' : store) (t : kdTree) (point : obj)
    (K : nat) :
  metric t = _distanceFunc ->
  (forall r,
      get_prop (deref h' r) "latitude" = get_prop (deref h r) "latitude" /\
      get_prop (deref h' r) "longitude" = get_prop (deref h r) "longitude") ->
  nearest h' t point K = nearest h t point K.
Proof.
  intros Hm Hco. unfold nearest. do 2 f_equal.
  apply map_ext. intros r. f_equal. rewrite Hm.
  apply distance_reads_coordinates; apply Hco.
Qed.

Lemma lookup_point_coordinates (t : kdTree) (K : nat) (h : store)
    (point : obj) (r : ref) :
  get_prop (deref (fst (lookup_point t K h point)) r) "latitude"
  = get_prop (deref h r) "latitude" /\
  get_prop (deref (fst (lookup_point t K h point)) r) "longitude"
  = get_prop (deref h r) "longitude".
Proof.
  destruct (lookup_point_store t K h point) as (_ & Hget & _).
  split; apply Hget; discriminate.
Qed.

Lemma series_coordinates (t : kdTree) (K : nat) (ps : list obj) (h : store)
    (r : ref) :
  get_prop (deref (fst (series t K h ps)) r) "latitude"
  = get_prop (deref h r) "latitude" /\
  get_prop (deref (fst (series t K h ps)) r) "longitude"
  = get_prop (deref h r) "longitude".
Proof.
  destruct (series_store t K ps h) as (_ & Hget & _).
  split; apply Hget; discriminate.
Qed.

(** The records selected for the points of an array, on a store that
    agrees with [h0] on the coordinates. *)
Lemma series_selection (t : kdTree) (K : nat) (ps : list obj)
    (h0 h : store) :
  metric t = _distanceFunc ->
  (forall r,
      get_prop (deref h r) "latitude" = get_prop (deref h0 r) "latitude" /\
      get_prop (deref h r) "longitude" = get_prop (deref h0 r) "longitude") ->
  snd (series t K h ps) = map (fun p => map fst (nearest h0 t p K)) ps.
Proof.
  intros Hm. revert h. induction ps as [|p ps IH]; intros h Hco.
  - reflexivity.
  - rewrite series_cons. cbn [snd map]. f_equal.
    + rewrite lookup_point_refs.
      now rewrite (nearest_coordinates h0 h t p K Hm Hco).
    + apply IH. intros r.
      destruct (lookup_point_coordinates t K h p r) as [Hlat Hlon].
      destruct (Hco r) as [Hlat0 Hlon0].
      split; congruence.
Qed.

(** X8: in an array of points, the records [_lookUp] selects for each
    point, and their order, are those a lookup of that point alone
    hands over; so the selection for a point does not depend on the
    other points of the array (the distances read off the records
    do). *)
Theorem lookUp_batch_selection (g : geocoder) (t : kdTree) (ps : list obj)
    (K : nat) :
  _kdTree g = Some t ->
  metric t = _distanceFunc ->
  exists results,
    snd (_lookUp g (Batch ps) K) = {| err := None; res := Some results |} /\
    Forall2
      (fun p l =>
         snd (lookUp g (Single p) (Some K))
         = {| err := None; res := Some l |})
      ps results.
Proof.
  intros Ht Hm.
  exists (snd (series t K (heap g) ps)). split.
  - now rewrite (_lookUp_initialized g t (Batch ps) _ Ht).
  - rewrite (series_selection t K ps (heap g) (heap g) Hm)
      by (intros r; split; reflexivity).
    induction ps as [|p ps IH]; constructor; [| exact IH].
    rewrite lookUp_delivers_first.
    rewrite (_lookUp_initialized g t (Single p) _ Ht). cbn [points_of err res snd].
    now rewrite series_cons, lookup_point_refs.
Qed.

Lemma lookUp_batch_selection_witness :
  exists results,
    snd (_lookUp index_two (Batch [point_antimeridian; point_origin]) 1)
    = {| err := None; res := Some results |} /\
    Forall2
      (fun p l =>
         snd (lookUp index_two (Single p) (Some 1%nat))
         = {| err := None; res := Some l |})
      [point_antimeridian; point_origin] results.
Proof.
  apply (lookUp_batch_selection index_two (tree_of [0; 1]%nat)
           [point_antimeridian; point_origin] 1); reflexivity.
Defined.

(** X9: what a lookup of one point hands over does not depend on the
    lookups made before it: after any earlier call, for one point or
    many and with any maximum, the same records come back in the same
    order, carrying the same distances. *)
Theorem lookUp_after_earlier_calls (g : geocoder) (t : kdTree)
    (earlier : points_arg) (arg1 : option nat) (point : obj)
    (arg2 : option nat) :
  _kdTree g = Some t ->
  metric t = _distanceFunc ->
  NoDup (points t) ->
  (forall r, In r (points t) -> (r < length (heap g))%nat) ->
  let g1 := fst (lookUp g earlier arg1) in
  exists l,
    snd (lookUp g (Single point) arg2) = {| err := None; res := Some l |} /\
    snd (lookUp g1 (Single point) arg2) = {| err := None; res := Some l |} /\
    distances (fst (lookUp g1 (Single point) arg2)) l
    = distances (fst (lookUp g (Single point) arg2)) l.
Proof.
  intros Ht Hm Hnd Hrange g1.
  set (K1 := match arg1 with None => 1%nat | Some k => k end).
  assert (Hg1 : g1 = {| heap := fst (series t K1 (heap g) (points_of earlier));
                        _kdTree := Some t |}).
  { unfold g1. rewrite lookUp_state.
    now rewrite (_lookUp_initialized g t earlier _ Ht). }
  assert (Ht1 : _kdTree g1 = Some t) by now rewrite Hg1.
  assert (Hco : forall r,
             get_prop (deref (heap g1) r) "latitude"
             = get_prop (deref (heap g) r) "latitude" /\
             get_prop (deref (heap g1) r) "longitude"
             = get_prop (deref (heap g) r) "longitude").
  { intros r. rewrite Hg1. apply series_coordinates. }
  assert (Hrange1 : forall r, In r (points t) -> (r < length (heap g1))%nat).
  { intros r Hr. rewrite Hg1. cbn [heap].
    destruct (series_store t K1 (points_of earlier) (heap g)) as (Hlen & _).
    rewrite Hlen. now apply Hrange. }
  destruct (lookUp_single_point g t point arg2 Ht Hnd Hrange)
    as (l & ds & Hres & Hdist & Hds).
  destruct (lookUp_single_point g1 t point arg2 Ht1 Hnd Hrange1)
    as (l1 & ds1 & Hres1 & Hdist1 & Hds1).
  assert (Hl : l1 = l).
  { rewrite lookUp_delivers_first in Hres, Hres1.
    rewrite (_lookUp_initialized g t (Single point) _ Ht) in Hres.
    rewrite (_lookUp_initialized g1 t (Single point) _ Ht1) in Hres1.
    cbn [points_of err res snd] in Hres, Hres1.
    rewrite series_cons, lookup_point_refs in Hres, Hres1.
    cbn [snd] in Hres, Hres1.
    rewrite (nearest_coordinates (heap g) (heap g1) t point _ Hm Hco)
      in Hres1.
    congruence. }
  subst l1. exists l. split; [exact Hres |]. split; [exact Hres1 |].
  rewrite Hdist, Hdist1, Hds, Hds1. f_equal.
  apply map_ext. intros r. rewrite Hm.
  apply distance_reads_coordinates; apply Hco.
Qed.

Lemma lookUp_after_earlier_calls_witness :
  let g1 :=
    fst (lookUp index_two (Batch [point_origin; point_malformed])
                (Some 2%nat)) in
  exists l,
    snd (lookUp index_two (Single point_antimeridian) None)
    = {| err := None; res := Some l |} /\
    snd (lookUp g1 (Single point_antimeridian) None)
    = {| err := None; res := Some l |} /\
    distances (fst (lookUp g1 (Single point_antimeridian) None)) l
    = distances (fst (lookUp index_two (Single point_antimeridian) None)) l.
Proof.
  apply (lookUp_after_earlier_calls index_two (tree_of [0; 1]%nat)
           (Batch [point_origin; point_malformed]) (Some 2%nat)
           point_antimeridian None).
  - reflexivity.
  - reflexivity.
  - repeat constructor; simpl; intuition congruence.
  - simpl. intros r [<-|[<-|[]]]; lia.
Defined.

(** *** The same lookup twice *)

Lemma set_prop_twice (o : obj) (k : string) (v : value) :
  set_prop (set_prop o k v) k v = set_prop o k v.
Proof.
  induction o as [|[k' v'] rest IH]; simpl.
  - now rewrite String.eqb_refl.
  - destruct (String.eqb k' k) eqn:E; simpl; rewrite E;
      [reflexivity | now rewrite IH].
Qed.

Lemma store_ext (h h' : store) :
  length h = length h' ->
  (forall r, deref h r = deref h' r) ->
  h = h'.
Proof.
  intros Hlen Hr. apply (nth_ext h h' [] [] Hlen). intros n _. apply Hr.
Qed.

(** Annotating distinct records of the store: each becomes what it was
    with its distance set. *)
Lemma annotate_fold_deref (result : list (ref * number)) (h : store)
    (acc : list ref) (z : ref * number) :
  NoDup (map fst result) ->
  (forall z', In z' result -> (fst z' < length h)%nat) ->
  In z result ->
  deref (fst (fold_left annotate_step result (h, acc))) (fst z)
  = set_prop (deref h (fst z)) "distance" (VNum (snd z)).
Proof.
  revert h acc. induction result as [|z0 rest IH]; intros h acc Hnd Hin Hz.
  - contradiction.
  - cbn [fold_left annotate_step]. cbn [map] in Hnd.
    apply NoDup_cons_iff in Hnd. destruct Hnd as [Hfresh Hnd].
    destruct Hz as [->|Hz].
    + destruct (annotate_fold_store rest
                  (update h (fst z)
                     (fun o => set_prop o "distance" (VNum (snd z))))
                  (acc ++ [fst z])) as (_ & _ & Hout).
      rewrite Hout by exact Hfresh.
      now rewrite deref_update_same by (apply Hin; now left).
    + rewrite IH; [| exact Hnd | | exact Hz].
      * rewrite deref_update_other; [reflexivity |].
        intros Heq. apply Hfresh. rewrite Heq. now apply in_map.
      * intros z' Hz'. rewrite update_length. apply Hin. now right.
Qed.

(** Annotating a second time with the same candidates changes
    nothing. *)
Lemma annotate_fold_twice (result : list (ref * number)) (h : store) :
  NoDup (map fst result) ->
  (forall z, In z result -> (fst z < length h)%nat) ->
  fst (fold_left annotate_step result
         (fst (fold_left annotate_step result (h, [])), []))
  = fst (fold_left annotate_step result (h, [])).
Proof.
  intros Hnd Hin.
  set (h1 := fst (fold_left annotate_step result (h, []))).
  destruct (annotate_fold_store result h []) as (Hlen1 & _ & _).
  fold h1 in Hlen1.
  destruct (annotate_fold_store result h1 []) as (Hlen2 & _ & Hout2).
  apply store_ext; [exact Hlen2 |].
  intros r. destruct (in_dec Nat.eq_dec r (map fst result)) as [Hr|Hr].
  - apply in_map_iff in Hr. destruct Hr as (z & <- & Hz).
    rewrite annotate_fold_deref;
      [| exact Hnd | intros z' Hz'; rewrite Hlen1; now apply Hin | exact Hz].
    unfold h1. rewrite annotate_fold_deref by assumption.
    apply set_prop_twice.
  - now apply Hout2.
Qed.

(** A lookup of one point, in one step. *)
Lemma lookUp_single_eval (g : geocoder) (t : kdTree) (point : obj)
    (arg2 : option nat) :
  _kdTree g = Some t ->
  let K := match arg2 with None => 1%nat | Some k => k end in
  lookUp g (Single point) arg2
  = ({| heap := fst (lookup_point t K (heap g) point); _kdTree := Some t |},
     {| err := None; res := Some (snd (lookup_point t K (heap g) point)) |}).
Proof.
  intros Ht K. unfold lookUp. fold K.
  rewrite (_lookUp_initialized g t (Single point) K Ht).
  cbn [points_of]. now rewrite series_cons, series_nil.
Qed.

(** The records a single step hands over, as they are when it is done:
    the stored records with their distances set. *)
Lemma lookup_point_records (t : kdTree) (K : nat) (h : store) (point : obj) :
  NoDup (points t) ->
  (forall r, In r (points t) -> (r < length h)%nat) ->
  map (deref (fst (lookup_point t K h point)))
      (snd (lookup_point t K h point))
  = map (fun z => set_prop (deref h (fst z)) "distance" (VNum (snd z)))
        (nearest h t point K).
Proof.
  intros Hnd Hrange. rewrite lookup_point_refs, lookup_point_fold, map_map.
  apply map_ext_in. intros z Hz.
  apply annotate_fold_deref.
  - now apply nearest_NoDup.
  - intros z' Hz'. apply Hrange. now apply (nearest_In h t point K).
  - exact Hz.
Qed.

(** X10: a lookup of one point made a second time hands over the same
    result and leaves the geocoder, its records included, exactly as
    the first lookup left it. *)
Theorem lookUp_twice (g : geocoder) (t : kdTree) (point : obj)
    (arg2 : option nat) :
  _kdTree g = Some t ->
  metric t = _distanceFunc ->
  NoDup (points t) ->
  (forall r, In r (points t) -> (r < length (heap g))%nat) ->
  lookUp (fst (lookUp g (Single point) arg2)) (Single point) arg2
  = lookUp g (Single point) arg2.
Proof.
  intros Ht Hm Hnd Hrange.
  set (K := match arg2 with None => 1%nat | Some k => k end).
  rewrite (lookUp_single_eval g t point arg2 Ht). cbv zeta. fold K.
  cbn [fst].
  rewrite (lookUp_single_eval
             {| heap := fst (lookup_point t K (heap g) point);
                _kdTree := Some t |} t point arg2 eq_refl).
  cbv zeta. fold K. cbn [heap].
  set (h := heap g).
  assert (Hco : forall r,
             get_prop (deref (fst (lookup_point t K h point)) r) "latitude"
             = get_prop (deref h r) "latitude" /\
             get_prop (deref (fst (lookup_point t K h point)) r) "longitude"
             = get_prop (deref h r) "longitude")
    by (intros r; apply lookup_point_coordinates).
  assert (Hnear : nearest (fst (lookup_point t K h point)) t point K
                  = nearest h t point K)
    by now apply nearest_coordinates.
  f_equal.
  - f_equal. rewrite !lookup_point_fold. cbn [fst].
    rewrite lookup_point_fold in Hnear. rewrite Hnear.
    apply annotate_fold_twice.
    + now apply nearest_NoDup.
    + intros z Hz. apply Hrange. now apply (nearest_In h t point K).
  - do 2 f_equal. rewrite !lookup_point_refs. now rewrite Hnear.
Qed.

Lemma lookUp_twice_witness :
  lookUp (fst (lookUp index_two (Single point_origin) (Some 2%nat)))
         (Single point_origin) (Some 2%nat)
  = lookUp index_two (Single point_origin) (Some 2%nat).
Proof.
  apply (lookUp_twice index_two (tree_of [0; 1]%nat) point_origin
           (Some 2%nat)).
  - reflexivity.
  - reflexivity.
  - repeat constructor; simpl; intuition congruence.
  - simpl. intros r [<-|[<-|[]]]; lia.
Defined.

(** *** The web service *)

Import WebService.

Lemma or_false_some (s : string) :
  s <> EmptyString -> or_false (Some s) = Some s.
Proof. destruct s; [contradiction | reflexivity]. Qed.


(** X12: while the geocoder has no tree, a request with both parameters
    is answered 500 with the message of [lookUp], and the geocoder is
    left as it was. *)
Theorem geocode_not_initialized (g : geocoder) (lat lon : string) :
  _kdTree g = None ->
  lat <> EmptyString ->
  lon <> EmptyString ->
  geocode g {| latitude := Some lat; longitude := Some lon |}
  = (g, {| status := 500; sent := Text NOT_INITIALIZED |}).
Proof.
  intros Hnull Hlat Hlon. unfold geocode. cbn [latitude longitude].
  rewrite !or_false_some by assumption.
  unfold lookUp, _lookUp. rewrite Hnull. reflexivity.
Qed.

Lemma geocode_not_initialized_witness :
  geocode geocoder0 {| latitude := Some "0"%string;
                       longitude := Some "180"%string |}
  = (geocoder0, {| status := 500; sent := Text NOT_INITIALIZED |}).
Proof.
  apply (geocode_not_initialized geocoder0 "0" "180");
    [reflexivity | discriminate | discriminate].
Defined.

Lemma geocode_initialized (g : geocoder) (t : kdTree) (lat lon : string) :
  _kdTree g = Some t ->
  lat <> EmptyString ->
  lon <> EmptyString ->
  let point :=
    [ ("latitude"%string, VStr lat); ("longitude"%string, VStr lon) ] in
  geocode g {| latitude := Some lat; longitude := Some lon |}
  = ({| heap := fst (lookup_point t 1 (heap g) point); _kdTree := Some t |},
     {| status := 200;
        sent := Addresses
                  (map (deref (fst (lookup_point t 1 (heap g) point)))
                       (snd (lookup_point t 1 (heap g) point))) |}).
Proof.
  intros Ht Hlat Hlon point. unfold geocode. cbn [latitude longitude].
  rewrite !or_false_some by assumption. fold point.
  now rewrite (lookUp_single_eval g t point (Some 1%nat) Ht).
Qed.

(** X13: on an initialised geocoder a request with both parameters is
    answered 200 with min(1, n) addresses, n the number of indexed
    records; an address is an indexed record with its [distance]
    property set to its distance from the point of the request. *)
Theorem geocode_addresses (g : geocoder) (t : kdTree) (lat lon : string) :
  _kdTree g = Some t ->
  metric t = _distanceFunc ->
  NoDup (points t) ->
  (forall r, In r (points t) -> (r < length (heap g))%nat) ->
  lat <> EmptyString ->
  lon <> EmptyString ->
  let point :=
    [ ("latitude"%string, VStr lat); ("longitude"%string, VStr lon) ] in
  exists addresses,
    snd (geocode g {| latitude := Some lat; longitude := Some lon |})
    = {| status := 200; sent := Addresses addresses |} /\
    length addresses = Nat.min 1 (length (points t)) /\
    Forall
      (fun a =>
         exists r,
           In r (points t) /\
           a = set_prop (deref (heap g) r) "distance"
                 (VNum (_distanceFunc point (deref (heap g) r))))
      addresses.
Proof.
  intros Ht Hm Hnd Hrange Hlat Hlon point.
  rewrite (geocode_initialized g t lat lon Ht Hlat Hlon). fold point.
  cbn [snd]. eexists. split; [reflexivity |]. split.
  - now rewrite length_map, lookup_point_length.
  - rewrite (lookup_point_records t 1 (heap g) point Hnd Hrange).
    apply Forall_forall. intros a Ha.
    apply in_map_iff in Ha. destruct Ha as (z & <- & Hz).
    destruct (nearest_In (heap g) t point 1 z Hz) as [Hr Hd].
    exists (fst z). split; [exact Hr |]. now rewrite Hd, Hm.
Qed.

Lemma geocode_addresses_witness :
  let point :=
    [ ("latitude"%string, VStr "0"); ("longitude"%string, VStr "180") ] in
  exists addresses,
    snd (geocode index_two {| latitude := Some "0"%string;
                              longitude := Some "180"%string |})
    = {| status := 200; sent := Addresses addresses |} /\
    length addresses = 1%nat /\
    Forall
      (fun a =>
         exists r,
           In r [0; 1]%nat /\
           a = set_prop (deref (heap index_two) r) "distance"
                 (VNum (_distanceFunc point (deref (heap index_two) r))))
      addresses.
Proof.
  apply (geocode_addresses index_two (tree_of [0; 1]%nat) "0" "180").
  - reflexivity.
  - reflexivity.
  - repeat constructor; simpl; intuition congruence.
  - simpl. intros r [<-|[<-|[]]]; lia.
  - discriminate.
  - discriminate.
Defined.

Lemma set_prop_overwrite (o : obj) (k : string) (v v' : value) :
  set_prop (set_prop o k v) k v' = set_prop o k v'.
Proof.
  induction o as [|[k0 v0] rest IH]; simpl.
  - now rewrite String.eqb_refl.
  - destruct (String.eqb k0 k) eqn:E; simpl; rewrite E;
      [reflexivity | now rewrite IH].
Qed.

(** A single step leaves each record as it was, or as it was with its
    distance set. *)
Lemma lookup_point_annotated (t : kdTree) (K : nat) (h : store)
    (point : obj) (r : ref) :
  NoDup (points t) ->
  (forall r, In r (points t) -> (r < length h)%nat) ->
  deref (fst (lookup_point t K h point)) r = deref h r \/
  exists v,
    deref (fst (lookup_point t K h point)) r
    = set_prop (deref h r) "distance" v.
Proof.
  intros Hnd Hrange. rewrite lookup_point_fold.
  destruct (in_dec Nat.eq_dec r (map fst (nearest h t point K))) as [Hr|Hr].
  - right. apply in_map_iff in Hr. destruct Hr as (z & <- & Hz).
    exists (VNum (snd z)). apply annotate_fold_deref.
    + now apply nearest_NoDup.
    + intros z' Hz'. apply Hrange. now apply (nearest_In h t point K).
    + exact Hz.
  - left. now apply annotate_fold_store.
Qed.

(** The response to a request is the same on two geocoders with the
    same tree whose records differ in their distances only. *)
Lemma geocode_response_annotated (g g1 : geocoder) (t : kdTree)
    (req : query) :
  _kdTree g = Some t ->
  _kdTree g1 = Some t ->
  metric t = _distanceFunc ->
  NoDup (points t) ->
  (forall r, In r (points t) -> (r < length (heap g))%nat) ->
  length (heap g1) = length (heap g) ->
  (forall r,
      deref (heap g1) r = deref (heap g) r \/
      exists v, deref (heap g1) r = set_prop (deref (heap g) r) "distance" v) ->
  snd (geocode g1 req) = snd (geocode g req).
Proof.
  intros Ht Ht1 Hm Hnd Hrange Hlen Hann.
  destruct (or_false (latitude req)) as [lat|] eqn:Elat;
    [| unfold geocode; now rewrite Elat].
  destruct (or_false (longitude req)) as [lon|] eqn:Elon;
    [| unfold geocode; now rewrite Elat, Elon].
  unfold geocode. rewrite Elat, Elon.
  set (point := [ ("latitude"%string, VStr lat);
                  ("longitude"%string, VStr lon) ]).
  rewrite (lookUp_single_eval g t point (Some 1%nat) Ht).
  rewrite (lookUp_single_eval g1 t point (Some 1%nat) Ht1).
  cbv zeta. cbn [err res snd heap]. do 2 f_equal.
  assert (Hrange1 : forall r, In r (points t) -> (r < length (heap g1))%nat)
    by (intros r Hr; rewrite Hlen; now apply Hrange).
  rewrite (lookup_point_records t 1 (heap g1) point Hnd Hrange1).
  rewrite (lookup_point_records t 1 (heap g) point Hnd Hrange).
  assert (Hco : forall r,
             get_prop (deref (heap g1) r) "latitude"
             = get_prop (deref (heap g) r) "latitude" /\
             get_prop (deref (heap g1) r) "longitude"
             = get_prop (deref (heap g) r) "longitude").
  { intros r. destruct (Hann r) as [->|[v ->]]; [split; reflexivity |].
    split; apply get_set_prop_other; discriminate. }
  rewrite (nearest_coordinates (heap g) (heap g1) t point 1 Hm Hco).
  apply map_ext. intros z.
  destruct (Hann (fst z)) as [->|[v ->]]; [reflexivity |].
  apply set_prop_overwrite.
Qed.

(** Handling a request keeps the tree, and leaves each record as
    ingestion left it up to its distance. *)
Lemma geocode_keeps_annotated (g g1 : geocoder) (t : kdTree) (q : query) :
  NoDup (points t) ->
  (forall r, In r (points t) -> (r < length (heap g))%nat) ->
  _kdTree g1 = Some t ->
  length (heap g1) = length (heap g) ->
  (forall r,
      deref (heap g1) r = deref (heap g) r \/
      exists v, deref (heap g1) r = set_prop (deref (heap g) r) "distance" v) ->
  _kdTree (fst (geocode g1 q)) = Some t /\
  length (heap (fst (geocode g1 q))) = length (heap g) /\
  (forall r,
      deref (heap (fst (geocode g1 q))) r = deref (heap g) r \/
      exists v,
        deref (heap (fst (geocode g1 q))) r
        = set_prop (deref (heap g) r) "distance" v).
Proof.
  intros Hnd Hrange Ht1 Hlen Hann.
  destruct (or_false (latitude q)) as [lat|] eqn:Elat;
    [| unfold geocode; rewrite Elat; auto].
  destruct (or_false (longitude q)) as [lon|] eqn:Elon;
    [| unfold geocode; rewrite Elat, Elon; auto].
  unfold geocode. rewrite Elat, Elon.
  set (point := [ ("latitude"%string, VStr lat);
                  ("longitude"%string, VStr lon) ]).
  rewrite (lookUp_single_eval g1 t point (Some 1%nat) Ht1).
  cbv zeta. cbn [err fst heap _kdTree].
  split; [reflexivity |]. split.
  - destruct (lookup_point_store t 1 (heap g1) point) as (Hl & _).
    now rewrite Hl.
  - intros r.
    assert (Hrange1 : forall r, In r (points t) ->
                                (r < length (heap g1))%nat)
      by (intros r' Hr'; rewrite Hlen; now apply Hrange).
    destruct (lookup_point_annotated t 1 (heap g1) point r Hnd Hrange1)
      as [->|[v ->]]; [apply Hann |].
    right. destruct (Hann r) as [->|[v0 ->]].
    + now exists v.
    + exists v. apply set_prop_overwrite.
Qed.

(** X14: the response to a request does not depend on the requests
    served before it: after any sequence of earlier requests the
    handler sends what it would send on the geocoder as ingestion left
    it, addresses and distances included. *)
Theorem geocode_history_free (g : geocoder) (t : kdTree)
    (reqs : list query) (req : query) :
  _kdTree g = Some t ->
  metric t = _distanceFunc ->
  NoDup (points t) ->
  (forall r, In r (points t) -> (r < length (heap g))%nat) ->
  snd (geocode (serve g reqs) req) = snd (geocode g req).
Proof.
  intros Ht Hm Hnd Hrange.
  assert (Hinv : forall reqs g1,
             _kdTree g1 = Some t ->
             length (heap g1) = length (heap g) ->
             (forall r,
                 deref (heap g1) r = deref (heap g) r \/
                 exists v,
                   deref (heap g1) r
                   = set_prop (deref (heap g) r) "distance" v) ->
             snd (geocode (serve g1 reqs) req) = snd (geocode g req)).
  { clear reqs. induction reqs as [|q reqs IH]; intros g1 Ht1 Hlen Hann.
    - now apply (geocode_response_annotated g g1 t).
    - unfold serve. cbn [fold_left]. fold (serve (fst (geocode g1 q)) reqs).
      destruct (geocode_keeps_annotated g g1 t q Hnd Hrange Ht1 Hlen Hann)
        as (Ht2 & Hlen2 & Hann2).
      now apply IH. }
  apply Hinv; [exact Ht | reflexivity | intros r; now left].
Qed.

Lemma geocode_history_free_witness :
  snd (geocode
         (serve index_two
            [ {| latitude := Some "0"%string; longitude := Some "0"%string |};
              {| latitude := None; longitude := Some "7"%string |};
              {| latitude := Some "abc"%string;
                 longitude := Some "1000"%string |} ])
         {| latitude := Some "0"%string; longitude := Some "180"%string |})
  = snd (geocode index_two
           {| latitude := Some "0"%string; longitude := Some "180"%string |}).
Proof.
  apply (geocode_history_free index_two (tree_of [0; 1]%nat)).
  - reflexivity.
  - reflexivity.
  - repeat constructor; simpl; intuition congruence.
  - simpl. intros r [<-|[<-|[]]]; lia.
Defined.

(** *** The order of the candidates and the distances read *)

Section CandidateOrder.
Local Open Scope R_scope.

(** Along the equator the distance is the radius times the difference
    of the longitudes, up to half a turn. *)
Lemma haversine_km_equator (lon1 lon2 : R) :
  lon1 <= lon2 <= lon1 + 180 ->
  haversine_km 0 lon1 0 lon2 = 6371 * ((lon2 - lon1) * PI / 180).
Proof.
  intros [Hlo Hhi]. unfold haversine_km, hav.
  replace ((0 - 0) * PI / 180 / 2) with 0 by field.
  replace (0 * PI / 180) with 0 by field.
  rewrite sin_0, cos_0.
  set (x := (lon2 - lon1) * PI / 180 / 2).
  replace (0 * 0 + 1 * 1 * sin x * sin x) with (sin x * sin x) by ring.
  pose proof PI_RGT_0 as Hpi.
  assert (Hx : 0 <= x <= PI / 2) by (unfold x; split; nra).
  rewrite sqrt_square by (apply sin_ge_0; lra).
  rewrite asin_sin by lra.
  unfold x. field.
Qed.

Lemma StringToNumber_30 : StringToNumber "30" = Fin 30.
Proof. unfold StringToNumber. simpl. f_equal. lra. Qed.

Lemma StringToNumber_90 : StringToNumber "90" = Fin 90.
Proof. unfold StringToNumber. simpl. f_equal. lra. Qed.

Lemma index_three_state :
  index_three
  = {| heap := [record_origin; parse_line line_thirty; parse_line line_ninety];
       _kdTree := Some (tree_of [0; 1; 2]%nat) |}.
Proof. reflexivity. Qed.

(** The distances of the three records from the point at 10 degrees
    west: 10, 40 and 100 degrees of arc. *)
Lemma dist_ten_west (r : ref) :
  In r [0; 1; 2]%nat ->
  _distanceFunc point_ten_west (deref (heap index_three) r)
  = Fin (6371 * (nth r [10; 40; 100] 0 * PI / 180)).
Proof.
  intros [<-|[<-|[<-|[]]]].
  - rewrite (distance_is_haversine point_ten_west _ 0 (-10) 0 0);
      try reflexivity; try exact StringToNumber_0.
    rewrite haversine_km_equator by lra. cbn [nth]. f_equal. field.
  - rewrite (distance_is_haversine point_ten_west _ 0 (-10) 0 30);
      try reflexivity; try exact StringToNumber_0;
      try exact StringToNumber_30.
    rewrite haversine_km_equator by lra. cbn [nth]. f_equal. field.
  - rewrite (distance_is_haversine point_ten_west _ 0 (-10) 0 90);
      try reflexivity; try exact StringToNumber_0;
      try exact StringToNumber_90.
    rewrite haversine_km_equator by lra. cbn [nth]. f_equal. field.
Qed.

(** The distances of the three records from the point at 20 degrees
    east: 20, 10 and 70 degrees of arc. *)
Lemma dist_twenty_east (r : ref) :
  In r [0; 1; 2]%nat ->
  _distanceFunc point_twenty_east (deref (heap index_three) r)
  = Fin (6371 * (nth r [20; 10; 70] 0 * PI / 180)).
Proof.
  intros [<-|[<-|[<-|[]]]].
  - rewrite (distance_is_haversine point_twenty_east _ 0 20 0 0);
      try reflexivity; try exact StringToNumber_0.
    unfold haversine_km. rewrite hav_sym. fold (haversine_km 0 0 0 20).
    rewrite haversine_km_equator by lra. cbn [nth]. f_equal. field.
  - rewrite (distance_is_haversine point_twenty_east _ 0 20 0 30);
      try reflexivity; try exact StringToNumber_0;
      try exact StringToNumber_30.
    rewrite haversine_km_equator by lra. cbn [nth]. f_equal. field.
  - rewrite (distance_is_haversine point_twenty_east _ 0 20 0 90);
      try reflexivity; try exact StringToNumber_0;
      try exact StringToNumber_90.
    rewrite haversine_km_equator by lra. cbn [nth]. f_equal. field.
Qed.

(** The six orders of three records. *)
Lemma three_orders (l : list ref) :
  Permutation l [0; 1; 2]%nat ->
  l = [0; 1; 2]%nat \/ l = [0; 2; 1]%nat \/ l = [1; 0; 2]%nat \/
  l = [1; 2; 0]%nat \/ l = [2; 0; 1]%nat \/ l = [2; 1; 0]%nat.
Proof.
  intros H.
  pose proof (Permutation_length H) as Hlen.
  destruct l as [|a [|b [|c [|d l]]]]; simpl in Hlen; try discriminate.
  assert (Hnd : NoDup [a; b; c]).
  { apply (Permutation_NoDup (Permutation_sym H)).
    repeat constructor; simpl; intuition discriminate. }
  assert (Ha : In a [0; 1; 2]%nat)
    by (apply (Permutation_in _ H); simpl; auto).
  assert (Hb : In b [0; 1; 2]%nat)
    by (apply (Permutation_in _ H); simpl; auto).
  assert (Hc : In c [0; 1; 2]%nat)
    by (apply (Permutation_in _ H); simpl; auto).
  inversion Hnd as [|? ? Hab Hnd1]; subst.
  inversion Hnd1 as [|? ? Hbc _]; subst.
  simpl in Hab, Hbc, Ha, Hb, Hc.
  destruct Ha as [<-|[<-|[<-|[]]]];
    destruct Hb as [<-|[<-|[<-|[]]]];
    destruct Hc as [<-|[<-|[<-|[]]]];
    tauto.
Qed.

Lemma annotate_fold (h : store) (result : list (ref * number)) :
  annotate h result = fold_left annotate_step result (h, []).
Proof. now destruct result. Qed.

Lemma lookup_point_annotate (t : kdTree) (K : nat) (h : store)
    (point : obj) :
  lookup_point t K h point = annotate h (nearest h t point K).
Proof. reflexivity. Qed.

(** C3, on three indexed records at longitudes 0, 30 and 90 of the
    equator and an array of two points, at longitudes 20 and -10,
    asking for three results each, whatever the order in which the tree
    hands the candidates over: the array the callback receives holds
    the candidates of the first point in the order of the tree, and
    the distances it reads off them are those of the second point, 10,
    40 and 100 degrees of arc for the three records. Unless the tree
    hands the candidates of the first point over in the order of the
    records themselves (which puts first the record that is neither
    the nearest to the first point nor the farthest from it), a
    distance read is followed by a strictly smaller one. *)
Theorem lookUp_batch_distances_out_of_order
    (resultA resultB : list (ref * number)) :
  Permutation (map fst resultA) [0; 1; 2]%nat ->
  Permutation resultB
    (map (fun r =>
            (r, _distanceFunc point_ten_west (deref (heap index_three) r)))
         [0; 1; 2]%nat) ->
  map fst resultA <> [0; 1; 2]%nat ->
  let first := annotate (heap index_three) resultA in
  let second := annotate (fst first) resultB in
  exists (pre post : list value) (x y : R),
    map (fun r => get_prop (deref (fst second) r) "distance") (snd first)
    = (pre ++ VNum (Fin x) :: VNum (Fin y) :: post)%list /\
    y < x.
Proof.
  intros HA HB Hother first second.
  assert (Hlen1 : length (fst first) = 3%nat).
  { unfold first. rewrite annotate_fold.
    destruct (annotate_fold_store resultA (heap index_three) [])
      as (Hl & _). now rewrite Hl. }
  assert (Hfirst : snd first = map fst resultA).
  { unfold first. rewrite annotate_fold. now rewrite annotate_fold_refs. }
  assert (HrefsB : Permutation (map fst resultB) [0; 1; 2]%nat).
  { apply (Permutation_map fst) in HB. now rewrite map_map in HB. }
  assert (Hread : forall r, In r [0; 1; 2]%nat ->
            get_prop (deref (fst second) r) "distance"
            = VNum (Fin (6371 * (nth r [10; 40; 100] 0 * PI / 180)))).
  { intros r Hr. unfold second. rewrite annotate_fold.
    rewrite <- (dist_ten_west r Hr).
    apply (annotate_fold_distance resultB (fst first) []
             (r, _distanceFunc point_ten_west (deref (heap index_three) r))).
    - apply (Permutation_NoDup (Permutation_sym HrefsB)).
      repeat constructor; simpl; intuition discriminate.
    - intros z Hz. rewrite Hlen1.
      assert (Hin : In (fst z) [0; 1; 2]%nat)
        by (apply (Permutation_in _ HrefsB); now apply in_map).
      simpl in Hin. lia.
    - apply (Permutation_in _ (Permutation_sym HB)).
      apply in_map_iff. now exists r. }
  rewrite Hfirst.
  pose proof PI_RGT_0 as Hpi.
  destruct (three_orders _ HA) as [H|[H|[H|[H|[H|H]]]]];
    [contradiction | | | | |]; rewrite H; cbn [map];
    rewrite !Hread by (simpl; auto); cbn [nth].
  - exists [VNum (Fin (6371 * (10 * PI / 180)))], [].
    eexists _, _. split; [reflexivity | lra].
  - exists [], [VNum (Fin (6371 * (100 * PI / 180)))].
    eexists _, _. split; [reflexivity | lra].
  - exists [VNum (Fin (6371 * (40 * PI / 180)))], [].
    eexists _, _. split; [reflexivity | lra].
  - exists [], [VNum (Fin (6371 * (40 * PI / 180)))].
    eexists _, _. split; [reflexivity | lra].
  - exists [], [VNum (Fin (6371 * (10 * PI / 180)))].
    eexists _, _. split; [reflexivity | lra].
Qed.

(** With as many results asked for as there are records, the
    candidates are the records of the tree, each with its distance. *)
Lemma nearest_all (h : store) (t : kdTree) (point : obj) (K : nat) :
  (length (points t) <= K)%nat ->
  Permutation (nearest h t point K)
              (map (fun r => (r, metric t point (deref h r))) (points t)).
Proof.
  intros HK. unfold nearest.
  rewrite firstn_all2
    by (now rewrite sort_by_distance_length, length_map).
  apply sort_by_distance_perm.
Qed.

(** [lookUp] on an array of two points, step by step. *)
Lemma lookUp_two_points (g : geocoder) (t : kdTree) (pointA pointB : obj)
    (K : nat) :
  _kdTree g = Some t ->
  let first := annotate (heap g) (nearest (heap g) t pointA K) in
  let second := annotate (fst first) (nearest (fst first) t pointB K) in
  lookUp g (Batch [pointA; pointB]) (Some K)
  = ({| heap := fst second; _kdTree := Some t |},
     {| err := None; res := Some (snd first) |}).
Proof.
  intros Ht first second. unfold lookUp.
  rewrite (_lookUp_initialized g t (Batch [pointA; pointB]) K Ht).
  cbn [points_of]. rewrite !series_cons, series_nil.
  rewrite !lookup_point_annotate. reflexivity.
Qed.

(** The candidates of the point at 20 degrees east, in the ascending
    order of the modelled tree: the records at 30, 0 and 90. *)
Lemma nearest_twenty_east :
  nearest (heap index_three) (tree_of [0; 1; 2]%nat) point_twenty_east 3
  = [ (1%nat, Fin (6371 * (10 * PI / 180)));
      (0%nat, Fin (6371 * (20 * PI / 180)));
      (2%nat, Fin (6371 * (70 * PI / 180))) ].
Proof.
  pose proof PI_RGT_0 as Hpi.
  unfold nearest. cbn [tree_of points createKdTree map metric].
  rewrite (dist_twenty_east 0%nat), (dist_twenty_east 1%nat),
    (dist_twenty_east 2%nat)
    by (simpl; auto).
  cbn [nth sort_by_distance insert_by_distance snd].
  rewrite (num_ltb_ge (6371 * (70 * PI / 180)) (6371 * (10 * PI / 180)))
    by lra.
  cbn [insert_by_distance snd].
  rewrite (num_ltb_lt (6371 * (10 * PI / 180)) (6371 * (20 * PI / 180)))
    by lra.
  rewrite (num_ltb_ge (6371 * (70 * PI / 180)) (6371 * (20 * PI / 180)))
    by lra.
  reflexivity.
Qed.

Lemma lookUp_batch_distances_out_of_order_witness :
  exists (l : list ref) (pre post : list value) (x y : R),
    snd (lookUp index_three (Batch [point_twenty_east; point_ten_west])
                (Some 3%nat))
    = {| err := None; res := Some l |} /\
    distances
      (fst (lookUp index_three (Batch [point_twenty_east; point_ten_west])
                   (Some 3%nat))) l
    = (pre ++ VNum (Fin x) :: VNum (Fin y) :: post)%list /\
    y < x.
Proof.
  rewrite (lookUp_two_points index_three (tree_of [0; 1; 2]%nat)
             point_twenty_east point_ten_west 3 eq_refl).
  cbv zeta. cbn [fst snd].
  set (resultA := nearest (heap index_three) (tree_of [0; 1; 2]%nat)
                    point_twenty_east 3).
  set (resultB := nearest (fst (annotate (heap index_three) resultA))
                    (tree_of [0; 1; 2]%nat) point_ten_west 3).
  destruct (lookUp_batch_distances_out_of_order resultA resultB)
    as (pre & post & x & y & Hread & Hxy).
  - unfold resultA. rewrite nearest_twenty_east. cbn [map fst].
    apply perm_swap.
  - unfold resultB.
    eapply perm_trans; [apply nearest_all; simpl; lia |].
    assert (Hco : forall r,
               _distanceFunc point_ten_west
                 (deref (fst (annotate (heap index_three) resultA)) r)
               = _distanceFunc point_ten_west (deref (heap index_three) r)).
    { intros r. rewrite annotate_fold.
      destruct (annotate_fold_store resultA (heap index_three) [])
        as (_ & Hget & _).
      apply distance_reads_coordinates; apply Hget; discriminate. }
    cbn [tree_of points createKdTree metric map].
    rewrite !Hco. apply Permutation_refl.
  - unfold resultA. rewrite nearest_twenty_east. discriminate.
  - exists (snd (annotate (heap index_three) resultA)), pre, post, x, y.
    split; [reflexivity |]. split; [exact Hread | exact Hxy].
Defined.

End CandidateOrder.

(** *** The cache of the data file *)

Section CacheProperties.
Import Cache.
Local Open Scope string_scope.

Lemma append_assoc (a b c : string) : (a ++ b) ++ c = a ++ (b ++ c).
Proof. induction a as [|x a IH]; simpl; [reflexivity | now rewrite IH]. Qed.

Lemma append_length (a b : string) :
  String.length (a ++ b) = (String.length a + String.length b)%nat.
Proof. induction a as [|x a IH]; simpl; [reflexivity | now rewrite IH]. Qed.

Lemma append_inj_l (a b c : string) : a ++ b = a ++ c -> b = c.
Proof.
  induction a as [|x a IH]; simpl; intros H; [exact H|].
  injection H as H. now apply IH.
Qed.

Lemma append_inj_r (a b c : string) : a ++ c = b ++ c -> a = b.
Proof.
  revert b. induction a as [|x a IH]; intros [|y b] H; simpl in H.
  - reflexivity.
  - apply (f_equal String.length) in H. simpl in H.
    rewrite append_length in H. lia.
  - apply (f_equal String.length) in H. simpl in H.
    rewrite append_length in H. lia.
  - injection H as -> H. f_equal. now apply IH.
Qed.

Lemma slash_free_append (a b : string) :
  slash_free (a ++ b) = slash_free a && slash_free b.
Proof.
  induction a as [|x a IH]; simpl; [reflexivity|].
  now rewrite IH, andb_assoc.
Qed.

Lemma stat_In (fs : files) (path : string) :
  In path (map fst fs) <-> stat fs path <> None.
Proof.
  induction fs as [|[p k] fs IH]; simpl.
  - split; [intros [] | intros H; now apply H].
  - destruct (String.eqb path p) eqn:E.
    + apply String.eqb_eq in E. subst p. split; [discriminate | now left].
    + apply String.eqb_neq in E. rewrite <- IH. split.
      * intros [H|H]; [now subst | exact H].
      * now right.
Qed.

Lemma existsSync_stat (fs : files) (path : string) :
  existsSync fs path = true <-> stat fs path <> None.
Proof.
  unfold existsSync. destruct (stat fs path); split;
    try discriminate; try reflexivity. intros H. now contradiction H.
Qed.

Lemma stat_remove_same (fs : files) (path : string) :
  stat (remove_path fs path) path = None.
Proof.
  induction fs as [|[p k] fs IH]; simpl; [reflexivity|].
  destruct (String.eqb p path) eqn:E; simpl; [exact IH|].
  rewrite String.eqb_sym, E. exact IH.
Qed.

Lemma stat_remove_other (fs : files) (path p : string) :
  p <> path -> stat (remove_path fs path) p = stat fs p.
Proof.
  intros Hne. induction fs as [|[q k] fs IH]; simpl; [reflexivity|].
  destruct (String.eqb q path) eqn:E; simpl.
  - apply String.eqb_eq in E. subst q.
    apply String.eqb_neq in Hne. now rewrite Hne.
  - now rewrite IH.
Qed.

Lemma stat_place_same (fs : files) (path : string) (k : kind) :
  stat (place fs path k) path = Some k.
Proof. unfold place. simpl. now rewrite String.eqb_refl. Qed.

Lemma stat_place_other (fs : files) (path p : string) (k : kind) :
  p <> path -> stat (place fs path k) p = stat fs p.
Proof.
  intros Hne. unfold place. simpl.
  rewrite (proj2 (String.eqb_neq p path) Hne).
  now apply stat_remove_other.
Qed.

Lemma strip_prefix_append (prefix s : string) :
  strip_prefix prefix (prefix ++ s) = Some s.
Proof.
  induction prefix as [|x prefix IH]; simpl; [reflexivity|].
  now rewrite Ascii.eqb_refl.
Qed.

Lemma strip_prefix_inv (prefix s rest : string) :
  strip_prefix prefix s = Some rest -> s = prefix ++ rest.
Proof.
  revert s. induction prefix as [|x prefix IH]; intros s H; simpl in *.
  - now injection H.
  - destruct s as [|y s]; [discriminate|].
    destruct (Ascii.eqb x y) eqn:E; [|discriminate].
    apply Ascii.eqb_eq in E. subst y. f_equal. now apply IH.
Qed.

(** What lies directly in a directory: the paths made of the
    directory, a slash and a name without a slash. *)
Lemma entry_of_In (dir path name : string) :
  In name (entry_of dir path) <->
  name <> EmptyString /\ slash_free name = true /\ path = dir ++ "/" ++ name.
Proof.
  unfold entry_of. split.
  - destruct (strip_prefix (dir ++ "/") path) as [[|c rest]|] eqn:E;
      try contradiction.
    destruct (slash_free (String c rest)) eqn:Es; [|contradiction].
    intros [<-|[]]. split; [discriminate|]. split; [exact Es|].
    apply strip_prefix_inv in E. now rewrite append_assoc in E.
  - intros (Hne & Hs & ->). rewrite <- append_assoc, strip_prefix_append.
    destruct name as [|c rest]; [contradiction|].
    rewrite Hs. now left.
Qed.

Lemma readdirSync_In (fs : files) (dir : string) (names : list string)
    (name : string) :
  readdirSync fs dir = Some names ->
  (In name names <->
   name <> EmptyString /\ slash_free name = true /\
   stat fs (dir ++ "/" ++ name) <> None).
Proof.
  unfold readdirSync. destruct (stat fs dir) as [[|]|]; try discriminate.
  intros H. injection H as <-.
  rewrite nodup_In, in_flat_map. split.
  - intros (p & Hp & Hn). apply entry_of_In in Hn.
    destruct Hn as (Hne & Hs & ->). apply stat_In in Hp. auto.
  - intros (Hne & Hs & Hp). exists (dir ++ "/" ++ name).
    split; [now apply stat_In |]. now apply entry_of_In.
Qed.

Lemma readdirSync_NoDup (fs : files) (dir : string) (names : list string) :
  readdirSync fs dir = Some names -> NoDup names.
Proof.
  unfold readdirSync. destruct (stat fs dir) as [[|]|]; try discriminate.
  intros H. injection H as <-. apply NoDup_nodup.
Qed.

Lemma last_component_name (name cur : string) :
  slash_free name = true -> last_component name cur = cur ++ name.
Proof.
  revert cur. induction name as [|c name IH]; intros cur Hs; simpl in *.
  - clear Hs. induction cur as [|x cur IHc]; simpl; [reflexivity|].
    now rewrite <- IHc.
  - apply andb_prop in Hs. destruct Hs as [Hc Hs].
    apply negb_true_iff in Hc. rewrite Hc, (IH _ Hs).
    now rewrite append_assoc.
Qed.

Lemma last_component_entry (dir name cur : string) :
  slash_free name = true ->
  last_component (dir ++ String "/" name) cur = name.
Proof.
  intros Hs. revert cur.
  induction dir as [|c dir IH]; intros cur; cbn [String.append last_component].
  - rewrite Ascii.eqb_refl. now rewrite last_component_name.
  - destruct (Ascii.eqb c "/"); apply IH.
Qed.

Lemma basename_entry (dir name : string) :
  slash_free name = true -> basename (dir ++ "/" ++ name) = name.
Proof. intros Hs. now apply last_component_entry. Qed.

Lemma entry_path_inj (dir a b : string) :
  dir ++ "/postal_codes/" ++ a = dir ++ "/postal_codes/" ++ b -> a = b.
Proof.
  intros H. apply append_inj_l in H.
  now apply (append_inj_l "/postal_codes/") in H.
Qed.

(** The housekeeping loop on distinct names of regular files: it does
    not throw, and it removes the files of the names other than the
    current one, and nothing else. *)
Lemma remove_old_files_spec (dir current : string) (names : list string) :
  forall fs : files,
    NoDup names ->
    (forall n, In n names -> n <> current ->
               stat fs (dir ++ "/postal_codes/" ++ n) = Some RegularFile) ->
    exists fs',
      remove_old_files dir current fs names = Some fs' /\
      (forall n, In n names -> n <> current ->
                 stat fs' (dir ++ "/postal_codes/" ++ n) = None) /\
      (forall p,
          (forall n, In n names -> n <> current ->
                     p <> dir ++ "/postal_codes/" ++ n) ->
          stat fs' p = stat fs p).
Proof.
  induction names as [|file rest IH]; intros fs Hnd Hin.
  - exists fs. split; [reflexivity |]. split; [intros n [] | reflexivity].
  - apply NoDup_cons_iff in Hnd. destruct Hnd as [Hfresh Hnd].
    cbn [remove_old_files].
    destruct (String.eqb file current) eqn:E; cbn [negb].
    + apply String.eqb_eq in E. subst file.
      destruct (IH fs Hnd) as (fs' & Hrun & Hgone & Hkept).
      { intros n Hn. apply Hin. now right. }
      exists fs'. split; [exact Hrun |]. split.
      * intros n [<-|Hn] Hne; [contradiction | now apply Hgone].
      * intros p Hp. apply Hkept. intros n Hn. apply Hp. now right.
    + apply String.eqb_neq in E.
      unfold unlinkSync. rewrite (Hin file (or_introl eq_refl) E).
      destruct (IH (remove_path fs (dir ++ "/postal_codes/" ++ file)) Hnd)
        as (fs' & Hrun & Hgone & Hkept).
      { intros n Hn Hne. rewrite stat_remove_other.
        - apply Hin; [now right | exact Hne].
        - intros Heq. apply entry_path_inj in Heq. now subst. }
      exists fs'. split; [exact Hrun |]. split.
      * intros n [<-|Hn] Hne; [| now apply Hgone].
        rewrite Hkept; [apply stat_remove_same |].
        intros m Hm _ Heq. apply entry_path_inj in Heq. now subst.
      * intros p Hp. rewrite Hkept.
        -- apply stat_remove_other. apply Hp; [now left | exact E].
        -- intros n Hn. apply Hp. now right.
Qed.

(** The housekeeping loop throws when one of the names to remove is
    that of a directory. *)
Lemma remove_old_files_throws (dir current name : string)
    (names : list string) :
  forall fs : files,
    In name names -> name <> current ->
    stat fs (dir ++ "/postal_codes/" ++ name) = Some Directory ->
    remove_old_files dir current fs names = None.
Proof.
  induction names as [|file rest IH]; intros fs Hin Hne Hdir; [destruct Hin|].
  cbn [remove_old_files].
  destruct (String.eqb file current) eqn:E; cbn [negb].
  - apply String.eqb_eq in E. subst file.
    destruct Hin as [->|Hin]; [contradiction | now apply IH].
  - unfold unlinkSync.
    destruct (string_dec file name) as [->|Hfile].
    + now rewrite Hdir.
    + destruct (stat fs (dir ++ "/postal_codes/" ++ file)) as [[|]|];
        try reflexivity.
      destruct Hin as [->|Hin]; [contradiction|].
      apply IH; [exact Hin | exact Hne |].
      rewrite stat_remove_other; [exact Hdir |].
      intros Heq. apply entry_path_inj in Heq. now subst.
Qed.

Lemma postal_codes_path (dir name : string) :
  (dir ++ "/postal_codes") ++ "/" ++ name = dir ++ "/postal_codes/" ++ name.
Proof. now rewrite append_assoc. Qed.

Lemma postal_codes_not_entry (dir name : string) :
  dir ++ "/postal_codes" <> dir ++ "/postal_codes/" ++ name.
Proof.
  intros H. apply append_inj_l in H.
  apply (f_equal String.length) in H. simpl in H. lia.
Qed.

Lemma current_name_slash_free (now : string) :
  slash_free now = true ->
  slash_free (ALL_COUNTRIES_FILE ++ "_" ++ now ++ ".txt") = true.
Proof.
  intros H. rewrite !slash_free_append, H. reflexivity.
Qed.

Lemma zip_name_slash_free (now : string) :
  slash_free now = true ->
  slash_free (ALL_COUNTRIES_FILE ++ "_" ++ now ++ ".zip") = true.
Proof.
  intros H. rewrite !slash_free_append, H. reflexivity.
Qed.

Lemma zip_name_not_current (now later : string) :
  ALL_COUNTRIES_FILE ++ "_" ++ later ++ ".zip"
  <> ALL_COUNTRIES_FILE ++ "_" ++ now ++ ".txt".
Proof.
  intros H. apply (append_inj_l ALL_COUNTRIES_FILE) in H.
  apply (append_inj_l "_") in H.
  assert (Hlen : String.length later = String.length now).
  { apply (f_equal String.length) in H. rewrite !append_length in H.
    simpl in H. lia. }
  revert now H Hlen. induction later as [|c later IH]; intros [|d now] H Hlen;
    simpl in *; try discriminate.
  injection H as _ H. injection Hlen as Hlen. now apply (IH now).
Qed.

(** The state after the rename and the removal of the archive. *)
Lemma on_extracted_renamed (dir now : string) (fs : files) :
  stat fs (filename dir) = Some RegularFile ->
  stat fs (zipFilename dir now) = Some RegularFile ->
  stat fs (timestampedFilename dir now) <> Some Directory ->
  exists fs2,
    (forall A (k : files -> option A),
        match renameSync fs (filename dir) (timestampedFilename dir now) with
        | None => None
        | Some fs1 =>
            match unlinkSync fs1 (zipFilename dir now) with
            | None => None
            | Some fs2 => k fs2
            end
        end = k fs2) /\
    stat fs2 (timestampedFilename dir now) = Some RegularFile /\
    stat fs2 (filename dir) = None /\
    stat fs2 (zipFilename dir now) = None /\
    (forall p, p <> timestampedFilename dir now -> p <> filename dir ->
               p <> zipFilename dir now -> stat fs2 p = stat fs p).
Proof.
  intros Hfile Hzip Hts.
  set (current := ALL_COUNTRIES_FILE ++ "_" ++ now ++ ".txt").
  assert (Hzip_ts : zipFilename dir now <> timestampedFilename dir now).
  { intros H. apply entry_path_inj in H. now apply zip_name_not_current in H. }
  assert (Hzip_fn : zipFilename dir now <> filename dir).
  { intros H. apply entry_path_inj in H.
    apply (append_inj_l ALL_COUNTRIES_FILE) in H. discriminate. }
  assert (Hfn_ts : filename dir <> timestampedFilename dir now).
  { intros H. apply entry_path_inj in H.
    apply (append_inj_l ALL_COUNTRIES_FILE) in H. discriminate. }
  set (fs1 := place (remove_path fs (filename dir))
                    (timestampedFilename dir now) RegularFile).
  assert (Hren : renameSync fs (filename dir) (timestampedFilename dir now)
                 = Some fs1).
  { unfold renameSync. rewrite Hfile.
    destruct (stat fs (timestampedFilename dir now)) as [[|]|];
      try reflexivity. now contradiction Hts. }
  assert (Hzip1 : stat fs1 (zipFilename dir now) = Some RegularFile).
  { unfold fs1. rewrite stat_place_other by exact Hzip_ts.
    now rewrite stat_remove_other by exact Hzip_fn. }
  exists (remove_path fs1 (zipFilename dir now)). split; [| split; [| split; [| split]]].
  - intros A k. rewrite Hren. unfold unlinkSync. now rewrite Hzip1.
  - rewrite stat_remove_other by (intros H; now apply Hzip_ts).
    apply stat_place_same.
  - rewrite stat_remove_other by (intros H; now apply Hzip_fn).
    unfold fs1. rewrite stat_place_other by exact Hfn_ts.
    apply stat_remove_same.
  - apply stat_remove_same.
  - intros p Hp_ts Hp_fn Hp_zip.
    rewrite stat_remove_other by exact Hp_zip.
    unfold fs1. rewrite stat_place_other by exact Hp_ts.
    now apply stat_remove_other.
Qed.

(** The handler of the extraction, run on a file system that holds
    the data file and the archive as regular files, and no directory
    in the [postal_codes] directory. *)
Lemma on_extracted_spec (dir now : string) (fs : files) :
  slash_free now = true ->
  stat fs (dir ++ "/postal_codes") = Some Directory ->
  stat fs (filename dir) = Some RegularFile ->
  stat fs (zipFilename dir now) = Some RegularFile ->
  (forall n, slash_free n = true ->
             stat fs (dir ++ "/postal_codes/" ++ n) <> Some Directory) ->
  exists fs',
    on_extracted dir now fs = Some (fs', timestampedFilename dir now) /\
    stat fs' (timestampedFilename dir now) = Some RegularFile /\
    (forall name,
        name <> EmptyString -> slash_free name = true ->
        name <> ALL_COUNTRIES_FILE ++ "_" ++ now ++ ".txt" ->
        stat fs' (dir ++ "/postal_codes/" ++ name) = None) /\
    (forall p,
        entry_of (dir ++ "/postal_codes") p = [] ->
        stat fs' p = stat fs p).
Proof.
  intros Hnow Hpc Hfile Hzip Hflat.
  set (current := ALL_COUNTRIES_FILE ++ "_" ++ now ++ ".txt").
  assert (Hcur : slash_free current = true)
    by now apply current_name_slash_free.
  assert (Hts : timestampedFilename dir now
                = dir ++ "/postal_codes/" ++ current) by reflexivity.
  assert (Hfn : filename dir
                = dir ++ "/postal_codes/" ++ ALL_COUNTRIES_FILE ++ ".txt")
    by reflexivity.
  assert (Hzn : zipFilename dir now
                = dir ++ "/postal_codes/"
                    ++ ALL_COUNTRIES_FILE ++ "_" ++ now ++ ".zip")
    by reflexivity.
  destruct (on_extracted_renamed dir now fs Hfile Hzip)
    as (fs2 & Hrun2 & Hts2 & Hfn2 & Hzip2 & Hkept2).
  { rewrite Hts. now apply Hflat. }
  unfold on_extracted. rewrite Hrun2. cbv zeta.
  assert (Hbase : basename (timestampedFilename dir now) = current).
  { rewrite Hts, <- postal_codes_path. now apply basename_entry. }
  rewrite Hbase.
  assert (Hpc2 : stat fs2 (dir ++ "/postal_codes") = Some Directory).
  { rewrite Hkept2; [exact Hpc | | |]; apply postal_codes_not_entry. }
  assert (Hflat2 : forall n, slash_free n = true ->
                     stat fs2 (dir ++ "/postal_codes/" ++ n)
                     <> Some Directory).
  { intros n Hs.
    destruct (string_dec (dir ++ "/postal_codes/" ++ n)
                         (timestampedFilename dir now)) as [->|H1];
      [rewrite Hts2; discriminate |].
    destruct (string_dec (dir ++ "/postal_codes/" ++ n)
                         (filename dir)) as [->|H2];
      [rewrite Hfn2; discriminate |].
    destruct (string_dec (dir ++ "/postal_codes/" ++ n)
                         (zipFilename dir now)) as [->|H3];
      [rewrite Hzip2; discriminate |].
    rewrite Hkept2 by assumption. now apply Hflat. }
  destruct (readdirSync fs2 (dir ++ "/postal_codes")) as [names|] eqn:Hread;
    [| unfold readdirSync in Hread; rewrite Hpc2 in Hread; discriminate].
  assert (Hnames : forall n, In n names <->
                     n <> EmptyString /\ slash_free n = true /\
                     stat fs2 (dir ++ "/postal_codes/" ++ n) <> None).
  { intros n. rewrite (readdirSync_In _ _ _ n Hread).
    now rewrite postal_codes_path. }
  destruct (remove_old_files_spec dir current names fs2)
    as (fs3 & Hrun & Hgone & Hkept).
  { exact (readdirSync_NoDup _ _ _ Hread). }
  { intros n Hn _. apply Hnames in Hn. destruct Hn as (_ & Hs & Hn).
    specialize (Hflat2 n Hs).
    destruct (stat fs2 (dir ++ "/postal_codes/" ++ n)) as [[|]|];
      [reflexivity | now contradiction Hflat2 | now contradiction Hn]. }
  rewrite Hrun. exists fs3. split; [reflexivity |].
  split; [| split].
  - rewrite Hkept; [exact Hts2 |].
    intros n _ Hne Heq. rewrite Hts in Heq.
    apply entry_path_inj in Heq. now subst.
  - intros name Hne Hs Hncur.
    destruct (stat fs2 (dir ++ "/postal_codes/" ++ name)) eqn:E.
    + apply Hgone; [| exact Hncur]. apply Hnames.
      rewrite E. repeat split; auto. discriminate.
    + rewrite Hkept; [exact E |].
      intros n Hn _ Heq. apply entry_path_inj in Heq. subst n.
      apply Hnames in Hn. destruct Hn as (_ & _ & Hn). now apply Hn.
  - intros p Hp.
    assert (Hout : forall n, n <> EmptyString -> slash_free n = true ->
                             p <> dir ++ "/postal_codes/" ++ n).
    { intros n Hne Hs ->.
      assert (Hin : In n (entry_of (dir ++ "/postal_codes")
                            (dir ++ "/postal_codes/" ++ n))).
      { apply entry_of_In. now rewrite postal_codes_path. }
      rewrite Hp in Hin. contradiction. }
    rewrite Hkept.
    + apply Hkept2.
      * rewrite Hts. apply Hout; [discriminate | exact Hcur].
      * rewrite Hfn. apply Hout; [discriminate | reflexivity].
      * rewrite Hzn. apply Hout; [discriminate |].
        now apply zip_name_slash_free.
    + intros n Hn _. apply Hnames in Hn. destruct Hn as (Hne & Hs & _).
      now apply Hout.
Qed.

(** X15: when the extraction has closed with the data file and the
    archive in place as regular files, and nothing directly in the
    [postal_codes] directory is itself a directory, the handler does
    not throw and calls back with the path of the file of the day;
    afterwards the file of the day is the only thing directly in the
    [postal_codes] directory, whatever files were there before, and
    whatever lies elsewhere is as it was. *)
Theorem on_extracted_keeps_current_only (dir now : string) (fs : files)
    (name p : string) :
  slash_free now = true ->
  stat fs (dir ++ "/postal_codes") = Some Directory ->
  stat fs (filename dir) = Some RegularFile ->
  stat fs (zipFilename dir now) = Some RegularFile ->
  (forall n, slash_free n = true ->
             stat fs (dir ++ "/postal_codes/" ++ n) <> Some Directory) ->
  name <> EmptyString ->
  slash_free name = true ->
  entry_of (dir ++ "/postal_codes") p = [] ->
  exists fs',
    on_extracted dir now fs = Some (fs', timestampedFilename dir now) /\
    (existsSync fs' (dir ++ "/postal_codes/" ++ name) = true <->
     name = ALL_COUNTRIES_FILE ++ "_" ++ now ++ ".txt") /\
    stat fs' p = stat fs p.
Proof.
  intros Hnow Hpc Hfile Hzip Hflat Hne Hs Hp.
  destruct (on_extracted_spec dir now fs Hnow Hpc Hfile Hzip Hflat)
    as (fs' & Hrun & Hcur & Hdir & Hout).
  exists fs'. split; [exact Hrun |]. split; [| now apply Hout].
  rewrite existsSync_stat. split.
  - intros Hthere.
    destruct (string_dec name (ALL_COUNTRIES_FILE ++ "_" ++ now ++ ".txt"))
      as [Heq|Hneq]; [exact Heq |].
    now rewrite (Hdir name Hne Hs Hneq) in Hthere.
  - intros ->. unfold timestampedFilename in Hcur. rewrite Hcur. discriminate.
Qed.

Lemma on_extracted_keeps_current_only_witness :
  exists fs',
    on_extracted "/cache" "2026-11-02"
      [ ("/cache", Directory); ("/cache/postal_codes", Directory);
        ("/cache/postal_codes/allCountries_2026-11-01.txt", RegularFile);
        ("/cache/postal_codes/readme.txt", RegularFile);
        ("/cache/postal_codes/allCountries.txt", RegularFile);
        ("/cache/postal_codes/allCountries_2026-11-02.zip", RegularFile);
        ("/cache/notes.txt", RegularFile) ]
    = Some (fs', timestampedFilename "/cache" "2026-11-02") /\
    (existsSync fs' ("/cache" ++ "/postal_codes/" ++ "readme.txt") = true <->
     "readme.txt" = ALL_COUNTRIES_FILE ++ "_" ++ "2026-11-02" ++ ".txt") /\
    stat fs' "/cache/notes.txt"
    = stat
        [ ("/cache", Directory); ("/cache/postal_codes", Directory);
          ("/cache/postal_codes/allCountries_2026-11-01.txt", RegularFile);
          ("/cache/postal_codes/readme.txt", RegularFile);
          ("/cache/postal_codes/allCountries.txt", RegularFile);
          ("/cache/postal_codes/allCountries_2026-11-02.zip", RegularFile);
          ("/cache/notes.txt", RegularFile) ]
        "/cache/notes.txt".
Proof.
  apply on_extracted_keeps_current_only; try reflexivity; try discriminate.
  intros n _. simpl.
  repeat (destruct (String.eqb n _); [discriminate |]). discriminate.
Defined.

(** X16: the cache lasts for the day. After the handler of the
    extraction has run, a call of [_getGeoNamesPostalCodeData] on the
    same day calls back with the file of the day and leaves the file
    system alone; a call on any other day finds neither the file of
    that day nor the bare data file, and starts a download into the
    archive of that day. *)
Theorem cache_lasts_for_the_day (dir now later : string) (fs : files) :
  slash_free now = true ->
  slash_free later = true ->
  later <> now ->
  stat fs (dir ++ "/postal_codes") = Some Directory ->
  stat fs (filename dir) = Some RegularFile ->
  stat fs (zipFilename dir now) = Some RegularFile ->
  (forall n, slash_free n = true ->
             stat fs (dir ++ "/postal_codes/" ++ n) <> Some Directory) ->
  exists fs' fs'',
    on_extracted dir now fs = Some (fs', timestampedFilename dir now) /\
    _getGeoNamesPostalCodeData dir now fs'
    = Some (fs', Callback (timestampedFilename dir now)) /\
    _getGeoNamesPostalCodeData dir later fs'
    = Some (fs'', Fetch (GEONAMES_URL ++ ALL_COUNTRIES_FILE ++ ".zip")
                        (zipFilename dir later)) /\
    stat fs'' (zipFilename dir later) = Some RegularFile.
Proof.
  intros Hnow Hlater Hdiff Hpc Hfile Hzip Hflat.
  destruct (on_extracted_spec dir now fs Hnow Hpc Hfile Hzip Hflat)
    as (fs' & Hrun & Hcur & Hdir & Hout).
  assert (Hts : existsSync fs' (timestampedFilename dir now) = true).
  { unfold existsSync. now rewrite Hcur. }
  assert (Hts' : existsSync fs' (timestampedFilename dir later) = false).
  { unfold existsSync, timestampedFilename. rewrite Hdir; [reflexivity | | |].
    - discriminate.
    - now apply current_name_slash_free.
    - intros E. apply (append_inj_l ALL_COUNTRIES_FILE) in E.
      apply (append_inj_l "_") in E. apply append_inj_r in E.
      contradiction. }
  assert (Hfn : existsSync fs' (filename dir) = false).
  { unfold existsSync, filename. rewrite Hdir; [reflexivity | | |].
    - discriminate.
    - reflexivity.
    - intros E. apply (append_inj_l ALL_COUNTRIES_FILE) in E.
      discriminate. }
  assert (Hpc' : stat fs' (dir ++ "/postal_codes") = Some Directory).
  { rewrite Hout; [exact Hpc |].
    destruct (entry_of (dir ++ "/postal_codes") (dir ++ "/postal_codes"))
      as [|n l] eqn:E; [reflexivity |].
    assert (Hin : In n (entry_of (dir ++ "/postal_codes")
                          (dir ++ "/postal_codes")))
      by (rewrite E; now left).
    apply entry_of_In in Hin. destruct Hin as (_ & _ & Hin).
    rewrite postal_codes_path in Hin.
    now apply postal_codes_not_entry in Hin. }
  assert (Hzip' : stat fs' ((dir ++ "/postal_codes") ++ "/"
                    ++ ALL_COUNTRIES_FILE ++ "_" ++ later ++ ".zip") = None).
  { rewrite postal_codes_path. apply Hdir.
    - discriminate.
    - now apply zip_name_slash_free.
    - apply zip_name_not_current. }
  exists fs'.
  exists (place fs' ((dir ++ "/postal_codes") ++ "/"
            ++ ALL_COUNTRIES_FILE ++ "_" ++ later ++ ".zip") RegularFile).
  split; [exact Hrun |]. split; [| split].
  - unfold _getGeoNamesPostalCodeData. now rewrite Hts.
  - unfold _getGeoNamesPostalCodeData. rewrite Hts', Hfn.
    assert (Hex : existsSync fs' (dir ++ "/postal_codes") = true)
      by (unfold existsSync; now rewrite Hpc').
    rewrite Hex. cbn [negb]. cbv zeta.
    unfold createWriteStream. now rewrite Hpc', Hzip'.
  - unfold zipFilename. rewrite <- postal_codes_path. apply stat_place_same.
Qed.

Lemma cache_lasts_for_the_day_witness :
  exists fs' fs'',
    on_extracted "/cache" "2026-11-02"
      [ ("/cache", Directory); ("/cache/postal_codes", Directory);
        ("/cache/postal_codes/allCountries_2026-11-01.txt", RegularFile);
        ("/cache/postal_codes/allCountries.txt", RegularFile);
        ("/cache/postal_codes/allCountries_2026-11-02.zip", RegularFile) ]
    = Some (fs', timestampedFilename "/cache" "2026-11-02") /\
    _getGeoNamesPostalCodeData "/cache" "2026-11-02" fs'
    = Some (fs', Callback (timestampedFilename "/cache" "2026-11-02")) /\
    _getGeoNamesPostalCodeData "/cache" "2026-11-03" fs'
    = Some (fs'', Fetch (GEONAMES_URL ++ ALL_COUNTRIES_FILE ++ ".zip")
                        (zipFilename "/cache" "2026-11-03")) /\
    stat fs'' (zipFilename "/cache" "2026-11-03") = Some RegularFile.
Proof.
  apply cache_lasts_for_the_day; try reflexivity; try discriminate.
  intros n _. simpl.
  repeat (destruct (String.eqb n _); [discriminate |]). discriminate.
Defined.

(** X19: the handler of the extraction throws when a directory lies
    directly in the [postal_codes] directory: [fs.unlinkSync] of the
    housekeeping loop, or [fs.renameSync] where the directory has the
    name of the file of the day, does not take a directory, so the
    callback is not called. *)
Theorem on_extracted_throws_on_directory (dir now : string) (fs : files)
    (name : string) :
  slash_free now = true ->
  stat fs (filename dir) = Some RegularFile ->
  stat fs (zipFilename dir now) = Some RegularFile ->
  name <> EmptyString ->
  slash_free name = true ->
  stat fs (dir ++ "/postal_codes/" ++ name) = Some Directory ->
  on_extracted dir now fs = None.
Proof.
  intros Hnow Hfile Hzip Hne Hs Hdir.
  set (current := ALL_COUNTRIES_FILE ++ "_" ++ now ++ ".txt").
  assert (Hts : timestampedFilename dir now
                = dir ++ "/postal_codes/" ++ current) by reflexivity.
  destruct (stat fs (timestampedFilename dir now)) as [[|]|] eqn:Ets.
  2: { unfold on_extracted, renameSync. now rewrite Hfile, Ets. }
  all: assert (Hncur : name <> current)
    by (intros ->; rewrite <- Hts, Ets in Hdir; discriminate).
  all: destruct (on_extracted_renamed dir now fs Hfile Hzip)
      as (fs2 & Hrun2 & Hts2 & Hfn2 & Hzip2 & Hkept2);
    [rewrite Ets; discriminate |].
  all: unfold on_extracted; rewrite Hrun2; cbv zeta.
  all: assert (Hbase : basename (timestampedFilename dir now) = current)
    by (rewrite Hts, <- postal_codes_path;
        apply basename_entry; now apply current_name_slash_free).
  all: rewrite Hbase.
  all: assert (Hdir2 : stat fs2 (dir ++ "/postal_codes/" ++ name)
                       = Some Directory)
    by (rewrite Hkept2; [exact Hdir | | |];
        [ rewrite Hts; intros H; apply entry_path_inj in H; contradiction
        | intros H; rewrite H, Hfile in Hdir; discriminate
        | intros H; rewrite H, Hzip in Hdir; discriminate ]).
  all: destruct (readdirSync fs2 (dir ++ "/postal_codes")) as [names|]
         eqn:Hread; [| reflexivity].
  all: rewrite (remove_old_files_throws dir current name names fs2);
      [reflexivity | | exact Hncur | exact Hdir2].
  all: apply (readdirSync_In _ _ _ name Hread).
  all: rewrite postal_codes_path, Hdir2; repeat split; auto; discriminate.
Qed.

Lemma on_extracted_throws_on_directory_witness :
  on_extracted "/cache" "2026-11-02"
    [ ("/cache", Directory); ("/cache/postal_codes", Directory);
      ("/cache/postal_codes/old", Directory);
      ("/cache/postal_codes/allCountries.txt", RegularFile);
      ("/cache/postal_codes/allCountries_2026-11-02.zip", RegularFile) ]
  = None.
Proof.
  apply (on_extracted_throws_on_directory "/cache" "2026-11-02" _ "old");
    try reflexivity; discriminate.
Defined.

End CacheProperties.

(** *** Lookups after ingestion *)


Lemma schema_column_not_distance (i : nat) :
  (i < length POSTALCODE_COLUMNS)%nat ->
  nth i POSTALCODE_COLUMNS EmptyString <> "distance"%string.
Proof.
  simpl. intros Hi.
  do 12 (destruct i as [|i]; [discriminate|]).
  lia.
Qed.

(** X18: on a geocoder that [init] has built from any lines, every
    record a lookup of one point hands over is the record of one of the
    lines: there is a line all twelve schema columns of which have, in
    the record, the value ingestion gave them, whatever lookups have
    written since. *)
Theorem lookUp_hands_over_ingested_records (lines : list string)
    (g0 : geocoder) (point : obj) (arg2 : option nat) (l : list ref)
    (r : ref) :
  let g := init lines g0 in
  res (snd (lookUp g (Single point) arg2)) = Some l ->
  In r l ->
  exists j,
    (j < length lines)%nat /\
    forall i,
      (i < length POSTALCODE_COLUMNS)%nat ->
      get_prop (deref (heap (fst (lookUp g (Single point) arg2))) r)
               (nth i POSTALCODE_COLUMNS EmptyString)
      = get_prop (parse_line (nth j lines EmptyString))
                 (nth i POSTALCODE_COLUMNS EmptyString).
Proof.
  intros g Hres Hr.
  set (t := createKdTree (seq (length (heap g0)) (length (map parse_line lines)))
              _distanceFunc [ "latitude"; "longitude" ]%string).
  assert (Ht : _kdTree g = Some t) by reflexivity.
  rewrite (lookUp_single_eval g t point arg2 Ht) in Hres |- *.
  cbn [snd res] in Hres. injection Hres as <-. cbn [fst heap].
  rewrite lookup_point_refs in Hr.
  apply in_map_iff in Hr. destruct Hr as (z & <- & Hz).
  apply nearest_In in Hz. destruct Hz as [Hz _].
  cbn [t points createKdTree] in Hz. apply in_seq in Hz.
  rewrite length_map in Hz.
  exists (fst z - length (heap g0))%nat. split; [lia |].
  intros i Hi.
  destruct (lookup_point_store t
              (match arg2 with None => 1%nat | Some k => k end)
              (heap g) point) as (_ & Hget & _).
  rewrite Hget by now apply schema_column_not_distance.
  replace (fst z) with (length (heap g0) + (fst z - length (heap g0)))%nat
    at 1 by lia.
  unfold g, init, _parseGeoNamesPostalCodesCsv. cbn [alloc heap].
  rewrite deref_app_new. unfold deref.
  rewrite (nth_indep _ [] (parse_line EmptyString))
    by (rewrite length_map; lia).
  now rewrite (map_nth parse_line).
Qed.

Lemma lookUp_hands_over_ingested_records_witness :
  exists j,
    (j < length [line_short; line_antimeridian])%nat /\
    forall i,
      (i < length POSTALCODE_COLUMNS)%nat ->
      get_prop
        (deref (heap (fst (lookUp (init [line_short; line_antimeridian]
                                        geocoder0)
                                  (Single point_antimeridian) None))) 1)
        (nth i POSTALCODE_COLUMNS EmptyString)
      = get_prop (parse_line (nth j [line_short; line_antimeridian]
                                  EmptyString))
                 (nth i POSTALCODE_COLUMNS EmptyString).
Proof.
  apply (lookUp_hands_over_ingested_records
           [line_short; line_antimeridian] geocoder0 point_antimeridian
           None [1%nat] 1).
  - unfold lookUp.
    rewrite (_lookUp_initialized
               (init [line_short; line_antimeridian] geocoder0)
               (tree_of [0; 1]%nat) _ _ eq_refl).
    cbn [points_of].
    rewrite series_cons, lookup_point_fold.
    change (heap (init [line_short; line_antimeridian] geocoder0))
      with [parse_line line_short; record_antimeridian].
    rewrite (nearest_two_swapped _ _ _ 1 (6371 * PI)%R 0%R).
    + reflexivity.
    + rewrite (distance_is_haversine point_antimeridian
                 (parse_line line_short) 0 180 0 0);
        try reflexivity.
      now rewrite (proj2 haversine_km_half_turn).
    + apply dist_antimeridian_antimeridian.
    + apply half_turn_pos.
  - now left.
Defined.
